(** * Email-Validator: a shallow embedding of [main.py]

    The development follows the layout of the script: Python strings and
    [str.strip], the fragment of the [re] engine that [EMAIL_REGEX] needs,
    [validate_format], the two network probes, [validate_email], the batch
    loop of [validate_file] and [extract_emails_from_text]. *)

From Stdlib Require Import Ascii String.
From Stdlib Require Import List Bool Arith NArith ZArith Lia.
From Stdlib Require Import PrimFloat.
From Stdlib Require Import Permutation.
Import ListNotations.

(** ** Python strings *)

(** A Python 3 [str] is a sequence of Unicode code points. *)
Definition char := N.
Definition str := list char.

Definition ch (a : ascii) : char := N_of_ascii a.

(** [lit "..."] writes a [str] literal from an ASCII string. *)
Definition lit (s : String.string) : str :=
  map ch (String.list_ascii_of_string s).

Definition in_range (lo hi c : char) : bool := ((lo <=? c) && (c <=? hi))%N.

(** [str.isspace] on one code point: the code points CPython lists as
    whitespace. *)
Definition isspace (c : char) : bool :=
  (in_range 9 13 c || in_range 28 32 c || (c =? 133) || (c =? 160)
   || (c =? 5760) || in_range 8192 8202 c || (c =? 8232) || (c =? 8233)
   || (c =? 8239) || (c =? 8287) || (c =? 12288))%N.

Fixpoint dropwhile (p : char -> bool) (s : str) : str :=
  match s with
  | [] => []
  | c :: s' => if p c then dropwhile p s' else s
  end.

Definition lstrip (s : str) : str := dropwhile isspace s.
Definition rstrip (s : str) : str := rev (dropwhile isspace (rev s)).

(** [s.strip()] *)
Definition strip (s : str) : str := rstrip (lstrip s).

(** [s.split(sep)] for a one-character separator: the pieces between the
    occurrences of [sep], empty pieces kept. *)
Fixpoint split (sep : char) (s : str) : list str :=
  match s with
  | [] => [[]]
  | c :: s' =>
      if (c =? sep)%N then [] :: split sep s'
      else match split sep s' with
           | [] => [[c]]
           | p :: ps => (c :: p) :: ps
           end
  end.

(** ** The [re] engine, for the nodes [EMAIL_REGEX] compiles to *)

Module Re.

Inductive node : Type :=
| AtBeginning                                (* ^ , no MULTILINE *)
| AtEnd                                      (* $ , no MULTILINE *)
| Literal (c : char)                         (* one given character *)
| MaxRepeat (lo : nat) (cls : char -> bool). (* greedy [..]{lo,} *)

Definition pattern := list node.

(** [$] matches at the end of the string and just before a newline that
    is the last character of the string. *)
Definition at_end (rest : str) : bool :=
  match rest with
  | [] => true
  | [c] => (c =? 10)%N
  | _ => false
  end.

(** Greedy repetition with backtracking: take as many characters of the
    class as there are, then give them back one at a time until the rest
    of the pattern [k] matches, never going below [lo] repetitions. *)
Fixpoint repeat_greedy (cls : char -> bool) (k : nat -> str -> option nat)
         (lo pos : nat) (s : str) : option nat :=
  let stop := if (lo =? 0)%nat then k pos s else None in
  match s with
  | [] => stop
  | c :: s' =>
      if cls c then
        match repeat_greedy cls k (pred lo) (S pos) s' with
        | Some e => Some e
        | None => stop
        end
      else stop
  end.

(** [exec p pos s] matches [p] against the text whose part from offset
    [pos] on is [s]; the answer is the offset where the match ends. *)
Fixpoint exec (p : pattern) (pos : nat) (s : str) : option nat :=
  match p with
  | [] => Some pos
  | AtBeginning :: p' => if (pos =? 0)%nat then exec p' pos s else None
  | AtEnd :: p' => if at_end s then exec p' pos s else None
  | Literal c :: p' =>
      match s with
      | x :: s' => if (x =? c)%N then exec p' (S pos) s' else None
      | [] => None
      end
  | MaxRepeat lo cls :: p' => repeat_greedy cls (exec p') lo pos s
  end.

(** [re.match(p, s)]: a match is tried at offset 0 only; the match object
    is represented by the offset where the match ends. *)
Definition match_ (p : pattern) (s : str) : option nat := exec p 0 s.

(** [re.findall(p, s)] for a pattern without groups: the matched texts,
    scanning left to right; after a match the scan resumes where the
    match ended.  [skip] counts the offsets a previous match covers. *)
Fixpoint findall_from (p : pattern) (pos skip : nat) (s : str) : list str :=
  match s with
  | [] =>
      match skip, exec p pos [] with
      | 0, Some _ => [[]]
      | _, _ => []
      end
  | _ :: s' =>
      match skip with
      | S k => findall_from p (S pos) k s'
      | 0 =>
          match exec p pos s with
          | Some e => firstn (e - pos) s :: findall_from p (S pos) (e - pos - 1) s'
          | None => findall_from p (S pos) 0 s'
          end
      end
  end.

Definition findall (p : pattern) (s : str) : list str := findall_from p 0 0 s.

End Re.

(** ** [EMAIL_REGEX] and [validate_format] *)

Definition is_lower (c : char) : bool := in_range (ch "a") (ch "z") c.
Definition is_upper (c : char) : bool := in_range (ch "A") (ch "Z") c.
Definition is_digit (c : char) : bool := in_range (ch "0") (ch "9") c.

(** [[a-zA-Z]] *)
Definition alpha_set (c : char) : bool := is_lower c || is_upper c.

(** [[a-zA-Z0-9._%+-]] *)
Definition local_set (c : char) : bool :=
  (is_lower c || is_upper c || is_digit c || (c =? ch ".") || (c =? ch "_")
   || (c =? ch "%") || (c =? ch "+") || (c =? ch "-"))%N.

(** [[a-zA-Z0-9.-]] *)
Definition domain_set (c : char) : bool :=
  (is_lower c || is_upper c || is_digit c || (c =? ch ".") || (c =? ch "-"))%N.

(** [r'^[a-zA-Z0-9._%+-]+@[a-zA-Z0-9.-]+\.[a-zA-Z]{2,}$'] *)
Definition EMAIL_REGEX : Re.pattern :=
  [ Re.AtBeginning;
    Re.MaxRepeat 1 local_set;
    Re.Literal (ch "@");
    Re.MaxRepeat 1 domain_set;
    Re.Literal (ch ".");
    Re.MaxRepeat 2 alpha_set;
    Re.AtEnd ].

(** [bool(m)] for a match object or [None] *)
Definition truthy {A : Type} (m : option A) : bool :=
  match m with Some _ => true | None => false end.

Definition validate_format (email : str) : bool :=
  truthy (Re.match_ EMAIL_REGEX (strip email)).

(** The three parts of an address: one or more characters of the local
    set, one or more of the domain set, two or more letters. *)
Definition email_shape (l d t : str) : Prop :=
  1 <= length l /\ forallb local_set l = true
  /\ 1 <= length d /\ forallb domain_set d = true
  /\ 2 <= length t /\ forallb alpha_set t = true.

(** The pattern of the format checker, in the words of the specification:
    local part, an at sign, domain, a dot, letters; the whole string, not a
    part of it. *)
Definition matches_email_pattern (s : str) : Prop :=
  exists l d t, s = l ++ ch "@" :: d ++ ch "." :: t /\ email_shape l d t.

(** Removing leading and trailing whitespace, as a relation: [t] is [s]
    without a whitespace prefix and a whitespace suffix, and [t] neither
    starts nor ends with whitespace. *)
Definition trimmed_of (s t : str) : Prop :=
  (exists pre post,
      s = pre ++ t ++ post
      /\ forallb isspace pre = true /\ forallb isspace post = true)
  /\ (forall c r, t = c :: r -> isspace c = false)
  /\ (forall r c, t = r ++ [c] -> isspace c = false).

(** ** Exceptions and effects *)

(** The exception classes that matter to the script.  [OtherException] is
    any further subclass of [Exception]; [KeyboardInterrupt] and
    [SystemExit] derive from [BaseException] only. *)
Inductive exn : Type :=
| NoAnswer                      (* dns.resolver.NoAnswer *)
| NXDOMAIN                      (* dns.resolver.NXDOMAIN *)
| LifetimeTimeout               (* dns.resolver.LifetimeTimeout *)
| NoNameservers                 (* dns.resolver.NoNameservers *)
| EmptyLabel                    (* dns.name.EmptyLabel, a malformed name *)
| LabelTooLong                  (* dns.name.LabelTooLong, a malformed name *)
| gaierror                      (* socket.gaierror *)
| herror                        (* socket.herror *)
| OSError
| UnicodeError
| ValueError
| IndexError
| OtherException (name : string)
| KeyboardInterrupt
| SystemExit.

(** [isinstance(e, Exception)] *)
Definition is_Exception (e : exn) : bool :=
  match e with
  | KeyboardInterrupt | SystemExit => false
  | _ => true
  end.

(** [isinstance(e, (dns.resolver.NoAnswer, dns.resolver.NXDOMAIN))] *)
Definition is_NoAnswer_or_NXDOMAIN (e : exn) : bool :=
  match e with
  | NoAnswer | NXDOMAIN => true
  | _ => false
  end.

(** [isinstance(e, socket.gaierror)] *)
Definition is_gaierror (e : exn) : bool :=
  match e with
  | gaierror => true
  | _ => false
  end.

Inductive result (A : Type) : Type :=
| Ret (a : A)
| Raise (e : exn).
Arguments Ret {A} a.
Arguments Raise {A} e.

(** The network requests a computation issues, in order. *)
Inductive call : Type :=
| MX_query (domain : str)       (* dns.resolver.resolve(domain, 'MX') *)
| Host_lookup (domain : str).   (* socket.gethostbyname(domain) *)

(** A computation: the network requests it made and how it ended. *)
Definition IO (A : Type) : Type := (list call * result A)%type.

Definition ret {A : Type} (a : A) : IO A := ([], Ret a).
Definition raise {A : Type} (e : exn) : IO A := ([], Raise e).

Definition bind {A B : Type} (m : IO A) (f : A -> IO B) : IO B :=
  match m with
  | (log, Ret a) => let (log', r) := f a in (log ++ log', r)
  | (log, Raise e) => (log, Raise e)
  end.

Notation "x <- m ;; k" := (bind m (fun x => k))
  (at level 61, m at next level, right associativity).

(** [try: body  except C1: h1  except C2: h2 ...]: the first clause whose
    class test accepts the exception runs; with none, the exception goes
    on to the caller. *)
Fixpoint handle {A : Type} (clauses : list ((exn -> bool) * IO A)) (e : exn)
  : IO A :=
  match clauses with
  | [] => raise e
  | (accepts, handler) :: rest =>
      if accepts e then handler else handle rest e
  end.

Definition try_except {A : Type} (body : IO A)
           (clauses : list ((exn -> bool) * IO A)) : IO A :=
  match body with
  | (log, Ret a) => (log, Ret a)
  | (log, Raise e) => let (log', r) := handle clauses e in (log ++ log', r)
  end.

(** [l[i]] *)
Definition getitem {A : Type} (l : list A) (i : nat) : IO A :=
  match nth_error l i with
  | Some x => ret x
  | None => raise IndexError
  end.

(** ** The network *)

(** One MX record: preference and exchange. *)
Definition mx_record : Type := (N * str)%type.

(** What the DNS resolver and the host's name resolution answer for a
    name.  The script does not define them: they are parameters. *)
Record Net : Type := {
  mx_answer : str -> result (list mx_record);
  host_answer : str -> result str
}.

Section Validator.

Variable net : Net.

(** [dns.resolver.resolve(domain, 'MX')] *)
Definition dns_resolver_resolve_MX (domain : str) : IO (list mx_record) :=
  ([MX_query domain], mx_answer net domain).

(** [socket.gethostbyname(domain)] *)
Definition socket_gethostbyname (domain : str) : IO str :=
  ([Host_lookup domain], host_answer net domain).

Definition check_mx_records (domain : str) : IO bool :=
  try_except
    (mx_records <- dns_resolver_resolve_MX domain ;;
     ret (0 <? length mx_records))
    [ (is_NoAnswer_or_NXDOMAIN, ret false);
      (is_Exception, ret false) ].

Definition check_domain_exists (domain : str) : IO bool :=
  try_except
    (_ <- socket_gethostbyname domain ;;
     ret true)
    [ (is_gaierror, ret false) ].

(** *** [validate_email] *)

Inductive Status : Type := valid | doubtful | invalid.

(** The [results] dictionary: its five keys never change, so it is a
    record; [None] is the Python [None]. *)
Record Result : Type := {
  email : str;
  valid_format : bool;
  has_mx : option bool;
  domain_exists : option bool;
  status : Status
}.

Definition set_valid_format (r : Result) (v : bool) : Result :=
  {| email := email r; valid_format := v; has_mx := has_mx r;
     domain_exists := domain_exists r; status := status r |}.
Definition set_has_mx (r : Result) (v : option bool) : Result :=
  {| email := email r; valid_format := valid_format r; has_mx := v;
     domain_exists := domain_exists r; status := status r |}.
Definition set_domain_exists (r : Result) (v : option bool) : Result :=
  {| email := email r; valid_format := valid_format r; has_mx := has_mx r;
     domain_exists := v; status := status r |}.
Definition set_status (r : Result) (v : Status) : Result :=
  {| email := email r; valid_format := valid_format r; has_mx := has_mx r;
     domain_exists := domain_exists r; status := v |}.

(** [not v] for [v] one of [None], [True], [False] *)
Definition not_ (v : option bool) : bool :=
  match v with
  | Some true => false
  | Some false | None => true
  end.

Definition validate_email (email : str) (check_mx check_domain : bool)
  : IO Result :=
  let email := strip email in
  let results :=
    {| email := email; valid_format := false; has_mx := None;
       domain_exists := None; status := invalid |} in
  if negb (validate_format email) then ret results
  else
    let results := set_valid_format results true in
    domain <- getitem (split (ch "@") email) 1 ;;
    results <- (if check_mx
                then b <- check_mx_records domain ;;
                     ret (set_has_mx results (Some b))
                else ret results) ;;
    results <- (if check_domain
                then b <- check_domain_exists domain ;;
                     ret (set_domain_exists results (Some b))
                else ret results) ;;
    let results :=
      if valid_format results then
        if (check_mx && not_ (has_mx results))
           || (check_domain && not_ (domain_exists results))
        then set_status results doubtful
        else set_status results valid
      else results in
    ret results.

(** *** The batch loop of [validate_file] *)

(** What the function prints or writes, one constructor per message. *)
Inductive event : Type :=
| Error_reading_file (e : exn)
| No_emails_found
| Validating (n : nat)
| Progress (percent : float)
| Validation_complete
| Summary (valid_count doubtful_count invalid_count : nat)
| Saved (output_file : str) (format : str) (results : list Result).

(** [float(n)] for a count; exact below 2^53. *)
Fixpoint float_of_nat (n : nat) : float :=
  match n with
  | 0 => 0%float
  | S m => (float_of_nat m + 1)%float
  end.

(** [(processed / len(emails)) * 100] *)
Definition progress (processed total : nat) : float :=
  (float_of_nat processed / float_of_nat total * 100)%float.

Fixpoint insert_at {A : Type} (k : nat) (x : A) (l : list A) : list A :=
  match k, l with
  | S k', y :: l' => y :: insert_at k' x l'
  | _, _ => x :: l
  end.

(** [as_completed(fs)]: every future once, in the order in which they
    finish.  That order is not fixed by the script; [sched] picks it: its
    i-th number says how many of the futures submitted after the i-th
    one finish before it.  The empty schedule is submission order. *)
Fixpoint as_completed {A : Type} (sched : list nat) (fs : list A) : list A :=
  match fs with
  | [] => []
  | f :: fs' => insert_at (hd 0 sched) f (as_completed (tl sched) fs')
  end.

(** The [for future in as_completed(...)] loop: [future.result()] hands
    back the result of the call or raises what the call raised. *)
Fixpoint collect (total : nat) (futures : list (result Result))
         (results : list Result) (processed : nat)
  : list event * result (list Result) :=
  match futures with
  | [] => ([], Ret results)
  | Raise e :: _ => ([], Raise e)
  | Ret r :: rest =>
      let results := results ++ [r] in
      let processed := processed + 1 in
      let (printed, out) := collect total rest results processed in
      (Progress (progress processed total) :: printed, out)
  end.

(** [ThreadPoolExecutor(max_workers=workers)] refuses a pool without
    workers. *)
Definition ThreadPoolExecutor (workers : Z) : result unit :=
  if (workers <=? 0)%Z then Raise ValueError else Ret tt.

(** Lines 114 to 128: one call of [validate_email] per address is
    submitted and the results are gathered as the calls finish. *)
Definition validate_concurrently (emails : list str)
           (check_mx check_domain : bool) (workers : Z) (sched : list nat)
  : list event * result (list Result) :=
  match ThreadPoolExecutor workers with
  | Raise e => ([], Raise e)
  | Ret _ =>
      let futures :=
        map (fun email => snd (validate_email email check_mx check_domain))
            emails in
      collect (length emails) (as_completed sched futures) [] 0
  end.

Definition is_empty {A : Type} (s : list A) : bool :=
  match s with [] => true | _ => false end.

(** [[line.strip() for line in f if line.strip()]] *)
Definition read_emails (lines : list str) : list str :=
  map strip (filter (fun line => negb (is_empty (strip line))) lines).

Definition count_status (st : Status) (results : list Result) : nat :=
  length (filter (fun r => match status r, st with
                           | valid, valid | doubtful, doubtful
                           | invalid, invalid => true
                           | _, _ => false
                           end) results).

(** [validate_file]; [file] is what opening and reading [file_path]
    gives, the lines or an error; [output_file] is [None] when the
    argument is absent or empty.  [save_results] is kept as the one event
    [Saved]. *)
Definition validate_file (file : result (list str))
           (check_mx check_domain : bool) (output_file : option str)
           (format : str) (workers : Z) (sched : list nat)
  : list event * result unit :=
  match file with
  | Raise e =>
      if is_Exception e then ([Error_reading_file e], Ret tt)
      else ([], Raise e)
  | Ret lines =>
      let emails := read_emails lines in
      if is_empty emails then ([No_emails_found], Ret tt)
      else
        let (printed, out) :=
          validate_concurrently emails check_mx check_domain workers sched in
        match out with
        | Raise e => (Validating (length emails) :: printed, Raise e)
        | Ret results =>
            (Validating (length emails) :: printed
               ++ [Validation_complete;
                   Summary (count_status valid results)
                           (count_status doubtful results)
                           (count_status invalid results)]
               ++ match output_file with
                  | Some f => [Saved f format results]
                  | None => []
                  end,
             Ret tt)
        end
  end.

End Validator.

(** ** [extract_emails_from_text] *)

Definition str_eqb (a b : str) : bool :=
  if list_eq_dec N.eq_dec a b then true else false.

(** [list(set(xs))]: each distinct element once.  Python fixes no order
    for the elements of a set; this model lists them by first occurrence. *)
Fixpoint list_set (xs : list str) : list str :=
  match xs with
  | [] => []
  | x :: xs' => x :: filter (fun y => negb (str_eqb x y)) (list_set xs')
  end.

Definition extract_emails_from_text (text : str) : list str :=
  let emails := Re.findall EMAIL_REGEX text in
  list_set emails.

(** ** [validate_single_email] *)

(** The truth value of [None], [True] or [False]. *)
Definition truth (v : option bool) : bool := negb (not_ v).

(** The lines [validate_single_email] prints, one constructor per [print]
    call, holding the value that goes into the text: the address as given,
    the fifty dashes, a check mark ([true]) or a cross ([false]), the
    status in capitals. *)
Inductive line : Type :=
| Email_line (email : str)
| Rule
| Format_validation (ok : bool)
| MX_records (ok : bool)
| Domain_exists (ok : bool)
| Overall_status (st : Status).

(** What was printed, and the call of [validate_email] behind it.  The
    parameter [verbose] is not used by the body. *)
Definition validate_single_email (net : Net) (email : str)
           (check_mx check_domain verbose : bool) : list line * IO Result :=
  match validate_email net email check_mx check_domain with
  | (log, Raise e) => ([], (log, Raise e))
  | (log, Ret results) =>
      ([Email_line email; Rule; Format_validation (valid_format results)]
         ++ (if valid_format results
             then (if check_mx
                   then [MX_records (truth (has_mx results))] else [])
                  ++ (if check_domain
                      then [Domain_exists (truth (domain_exists results))]
                      else [])
                  ++ [Overall_status (status results)]
             else [Overall_status invalid])
         ++ [Rule],
       (log, Ret results))
  end.

(** ** [save_results] *)

(** The text of a status, as [validate_email] stores it. *)
Definition status_name (st : Status) : str :=
  match st with
  | valid => lit "valid"
  | doubtful => lit "doubtful"
  | invalid => lit "invalid"
  end.

(** ['Yes' if v else 'No'] *)
Definition yes_no (v : bool) : str := if v then lit "Yes" else lit "No".

(** ['Yes' if v else 'No' if v is not None else 'N/A'] *)
Definition yes_no_na (v : option bool) : str :=
  if truth v then lit "Yes"
  else match v with
       | Some _ => lit "No"
       | None => lit "N/A"
       end.

Definition csv_header : list str :=
  [lit "Email"; lit "Format Valid"; lit "Has MX"; lit "Domain Exists";
   lit "Status"].

Definition csv_row (r : Result) : list str :=
  [email r; yes_no (valid_format r); yes_no_na (has_mx r);
   yes_no_na (domain_exists r); status_name (status r)].

(** What [save_results] writes and prints: the rows handed to the csv
    writer, the list handed to [json.dump], and the two messages. *)
Inductive saved : Type :=
| Csv_rows (output_file : str) (rows : list (list str))
| Json_dump (output_file : str) (results : list Result)
| Results_saved (output_file : str)
| Error_saving_results (e : exn).

(** [save_results]; [written] is what opening [output_file] and writing to
    it gives. *)
Definition save_results (written : result unit) (results : list Result)
           (output_file format : str) : list saved * result unit :=
  let body : list saved * result unit :=
    if str_eqb format (lit "csv") then
      match written with
      | Ret _ => ([Csv_rows output_file (csv_header :: map csv_row results);
                   Results_saved output_file], Ret tt)
      | Raise e => ([], Raise e)
      end
    else if str_eqb format (lit "json") then
      match written with
      | Ret _ => ([Json_dump output_file results; Results_saved output_file],
                  Ret tt)
      | Raise e => ([], Raise e)
      end
    else ([Results_saved output_file], Ret tt) in
  match body with
  | (out, Raise e) =>
      if is_Exception e then (out ++ [Error_saving_results e], Ret tt)
      else (out, Raise e)
  | (out, Ret _) => body
  end.

(** ** [extract_from_file] *)

(** The order of [str] values: by code point, a prefix first. *)
Fixpoint str_leb (a b : str) : bool :=
  match a, b with
  | [], _ => true
  | _ :: _, [] => false
  | x :: a', y :: b' =>
      if (x <? y)%N then true
      else if (y <? x)%N then false
      else str_leb a' b'
  end.

Fixpoint insert_sorted (x : str) (l : list str) : list str :=
  match l with
  | [] => [x]
  | y :: l' => if str_leb x y then x :: l else y :: insert_sorted x l'
  end.

(** [sorted(emails)] *)
Fixpoint sorted (l : list str) : list str :=
  match l with
  | [] => []
  | x :: l' => insert_sorted x (sorted l')
  end.

(** What [extract_from_file] prints and writes: the messages, one line
    per address, and the lines written to the output file. *)
Inductive extracted : Type :=
| No_addresses_found
| Found (n : nat)
| Address (email : str)
| Wrote_emails (output_file : str) (lines : list str)
| Emails_saved (output_file : str)
| Error_processing_file (e : exn).

(** [extract_from_file]; [file] is what opening and reading [file_path]
    gives, [written] what opening [output_file] and writing to it gives;
    [output_file] is [None] when the argument is absent or empty. *)
Definition extract_from_file (file : result str) (written : result unit)
           (output_file : option str) : list extracted * result unit :=
  let body : list extracted * result unit :=
    match file with
    | Raise e => ([], Raise e)
    | Ret text =>
        let emails := extract_emails_from_text text in
        if is_empty emails then ([No_addresses_found], Ret tt)
        else
          let shown := Found (length emails) :: map Address (sorted emails) in
          match output_file with
          | None => (shown, Ret tt)
          | Some f =>
              match written with
              | Ret _ =>
                  (shown ++ [Wrote_emails f (map (fun email => email ++ [10%N])
                                                 (sorted emails));
                             Emails_saved f], Ret tt)
              | Raise e => (shown, Raise e)
              end
          end
    end in
  match body with
  | (out, Raise e) =>
      if is_Exception e then (out ++ [Error_processing_file e], Ret tt)
      else (out, Raise e)
  | (out, Ret _) => body
  end.

(** ** [main] *)

(** What [parser.parse_args()] hands to [main]: the command and its
    options. *)
Inductive args : Type :=
| validate_args (email : str) (no_mx no_domain verbose : bool)
| file_args (input : str) (output : option str) (format : str)
            (no_mx no_domain : bool) (workers : Z)
| extract_args (input : str) (output : option str)
| stdin_args (no_mx no_domain : bool)
| no_command.

(** Everything around one run of the script: the network, the files, what
    the successive calls of [input()] give (after them the input is at its
    end), and the order in which the calls of a batch finish. *)
Record World : Type := {
  world_net : Net;
  read_lines : str -> result (list str);
  read_text : str -> result str;
  write_file : str -> result unit;
  stdin : list (result str);
  schedule : list nat
}.

Inductive printed : Type :=
| Single (l : line)
| Batch (e : event)
| Extraction (x : extracted)
| Enter_emails
| Blank
| Help.

(** [isinstance(e, KeyboardInterrupt)] *)
Definition is_KeyboardInterrupt (e : exn) : bool :=
  match e with
  | KeyboardInterrupt => true
  | _ => false
  end.

(** An [output_file] that is [None] or empty counts as absent. *)
Definition given (output : option str) : option str :=
  match output with
  | Some [] | None => None
  | Some f => Some f
  end.

(** The [while True] loop of the stdin command: lines are read until
    [input()] raises; [KeyboardInterrupt] ends the loop with the addresses
    read so far, any other exception leaves [main]. *)
Fixpoint read_stdin (inputs : list (result str)) (emails : list str)
  : result (list str) :=
  match inputs with
  | [] => Raise (OtherException "EOFError")
  | Raise e :: _ => if is_KeyboardInterrupt e then Ret emails else Raise e
  | Ret l :: rest =>
      let l := strip l in
      read_stdin rest (if is_empty l then emails else emails ++ [l])
  end.

(** The [for email in emails] loop of the stdin command. *)
Fixpoint validate_each (net : Net) (emails : list str)
         (check_mx check_domain : bool) : list line * IO unit :=
  match emails with
  | [] => ([], ret tt)
  | email :: rest =>
      match validate_single_email net email check_mx check_domain false with
      | (shown, (log, Raise e)) => (shown, (log, Raise e))
      | (shown, (log, Ret _)) =>
          let '(shown', (log', out)) :=
            validate_each net rest check_mx check_domain in
          (shown ++ shown', (log ++ log', out))
      end
  end.

Definition main (w : World) (a : args) : list printed * result unit :=
  match a with
  | validate_args email no_mx no_domain verbose =>
      let '(shown, (_, out)) :=
        validate_single_email (world_net w) email (negb no_mx)
                              (negb no_domain) verbose in
      (map Single shown,
       match out with Ret _ => Ret tt | Raise e => Raise e end)
  | file_args input output format no_mx no_domain workers =>
      let '(shown, out) :=
        validate_file (world_net w) (read_lines w input) (negb no_mx)
                      (negb no_domain) (given output) format workers
                      (schedule w) in
      (map Batch shown, out)
  | extract_args input output =>
      let '(shown, out) :=
        extract_from_file (read_text w input)
                          (match given output with
                           | Some f => write_file w f
                           | None => Ret tt
                           end)
                          (given output) in
      (map Extraction shown, out)
  | stdin_args no_mx no_domain =>
      match read_stdin (stdin w) [] with
      | Raise e => ([Enter_emails], Raise e)
      | Ret emails =>
          let '(shown, (_, out)) :=
            validate_each (world_net w) emails (negb no_mx) (negb no_domain) in
          (Enter_emails :: Blank :: map Single shown, out)
      end
  | no_command => ([Help], Ret tt)
  end.

(** ** Two networks to run the script against *)

(** A name with an empty label (the last one apart) or with a label of 64
    characters or more is malformed: dnspython refuses it when it parses
    the name, and so does the idna codec that [socket.gethostbyname]
    applies to its argument before any lookup. *)
Fixpoint malformed_name (labels : list str) : option exn :=
  match labels with
  | [] => None
  | [l] => if 63 <? length l then Some LabelTooLong else None
  | l :: rest =>
      if is_empty l then Some EmptyLabel
      else if 63 <? length l then Some LabelTooLong
      else malformed_name rest
  end.

(** A host without network access: no name server answers and no name
    resolves; a malformed name is refused with the parser's exception by
    the resolver and with [UnicodeError] by [socket.gethostbyname]. *)
Definition offline : Net := {|
  mx_answer := fun domain =>
    match malformed_name (split (ch ".") domain) with
    | Some e => Raise e
    | None => Raise NoNameservers
    end;
  host_answer := fun domain =>
    match malformed_name (split (ch ".") domain) with
    | Some _ => Raise UnicodeError
    | None => Raise gaierror
    end
|}.

(** A network on which [example.com] has one MX record and an address and
    no other name exists. *)
Definition example_net : Net := {|
  mx_answer := fun domain =>
    if str_eqb domain (lit "example.com")
    then Ret [(10%N, lit "mail.example.com")] else Raise NXDOMAIN;
  host_answer := fun domain =>
    if str_eqb domain (lit "example.com")
    then Ret (lit "93.184.216.34") else Raise gaierror
|}.

(** The results of the runs shown below. *)
Definition example_result (address : string) (mx dom : option bool)
           (st : Status) : Result :=
  {| email := lit address; valid_format := true; has_mx := mx;
     domain_exists := dom; status := st |}.

Definition malformed_result (address : string) : Result :=
  {| email := lit address; valid_format := false; has_mx := None;
     domain_exists := None; status := invalid |}.

(** * Properties *)

(** ** Whitespace trimming *)

Lemma dropwhile_prefix (p : char -> bool) (s : str) :
  exists pre, s = pre ++ dropwhile p s /\ forallb p pre = true.
Proof.
  induction s as [|c s IH]; simpl.
  - exists []. auto.
  - destruct (p c) eqn:Hc.
    + destruct IH as [pre [E F]]. exists (c :: pre). simpl.
      rewrite Hc, F. split; [f_equal; exact E | reflexivity].
    + exists []. auto.
Qed.

Lemma dropwhile_head (p : char -> bool) (s : str) c r :
  dropwhile p s = c :: r -> p c = false.
Proof.
  induction s as [|x s IH]; simpl; [discriminate|].
  destruct (p x) eqn:Hx; [exact IH|].
  intros E. injection E as -> _. exact Hx.
Qed.

Lemma dropwhile_fixed (p : char -> bool) c r :
  p c = false -> dropwhile p (c :: r) = c :: r.
Proof. intros H. simpl. now rewrite H. Qed.

Lemma dropwhile_app_stop (p : char -> bool) (l : str) c :
  p c = false -> dropwhile p (l ++ [c]) = dropwhile p l ++ [c].
Proof.
  intros Hc. induction l as [|x l IH]; simpl.
  - now rewrite Hc.
  - destruct (p x); [exact IH | reflexivity].
Qed.

Lemma forallb_rev (p : char -> bool) (l : str) :
  forallb p (rev l) = forallb p l.
Proof.
  induction l as [|x l IH]; simpl; [reflexivity|].
  rewrite forallb_app, IH. simpl. rewrite andb_true_r. apply andb_comm.
Qed.

Lemma rstrip_suffix (s : str) :
  exists post, s = rstrip s ++ post /\ forallb isspace post = true.
Proof.
  unfold rstrip. destruct (dropwhile_prefix isspace (rev s)) as [pre [E F]].
  exists (rev pre). split.
  - rewrite <- rev_app_distr, <- E. symmetry. apply rev_involutive.
  - now rewrite forallb_rev.
Qed.

Lemma rstrip_last (s r : str) c : rstrip s = r ++ [c] -> isspace c = false.
Proof.
  unfold rstrip. intros E.
  apply (f_equal (@rev char)) in E.
  rewrite rev_involutive, rev_app_distr in E. simpl in E.
  exact (dropwhile_head _ _ _ _ E).
Qed.

Lemma rstrip_cons (c : char) (r : str) :
  isspace c = false -> rstrip (c :: r) = c :: rstrip r.
Proof.
  intros Hc. unfold rstrip. simpl.
  rewrite (dropwhile_app_stop _ _ _ Hc), rev_app_distr. reflexivity.
Qed.

Lemma rstrip_fixed (s : str) :
  (forall r c, s = r ++ [c] -> isspace c = false) -> rstrip s = s.
Proof.
  intros H. unfold rstrip.
  destruct (rev s) as [|c r] eqn:E.
  - apply (f_equal (@rev char)) in E. rewrite rev_involutive in E.
    subst s. reflexivity.
  - assert (Es : s = rev r ++ [c]).
    { apply (f_equal (@rev char)) in E. rewrite rev_involutive in E. exact E. }
    rewrite (dropwhile_fixed _ _ _ (H _ _ Es)). simpl. now symmetry.
Qed.

Lemma strip_head (s : str) c r : strip s = c :: r -> isspace c = false.
Proof.
  unfold strip, lstrip. destruct (dropwhile isspace s) as [|x t] eqn:E.
  - discriminate.
  - pose proof (dropwhile_head _ _ _ _ E) as Hx.
    rewrite (rstrip_cons _ _ Hx). intros H. injection H as -> _. exact Hx.
Qed.

Lemma strip_last (s r : str) c : strip s = r ++ [c] -> isspace c = false.
Proof. apply rstrip_last. Qed.

Lemma strip_trims (s : str) : trimmed_of s (strip s).
Proof.
  split; [|split].
  - destruct (dropwhile_prefix isspace s) as [pre [E F]].
    destruct (rstrip_suffix (lstrip s)) as [post [E' F']].
    exists pre, post. split; [|auto].
    unfold strip. rewrite <- E'. exact E.
  - intros c r. apply strip_head.
  - intros r c. apply strip_last.
Qed.

Lemma strip_idempotent (s : str) : strip (strip s) = strip s.
Proof.
  unfold strip at 1. unfold lstrip.
  destruct (strip s) as [|c r] eqn:E; [reflexivity|].
  rewrite (dropwhile_fixed _ _ _ (strip_head _ _ _ E)).
  apply rstrip_fixed. intros r' c' E'. rewrite <- E in E'.
  exact (strip_last _ _ _ E').
Qed.

Lemma validate_format_strip (s : str) :
  validate_format (strip s) = validate_format s.
Proof. unfold validate_format. now rewrite strip_idempotent. Qed.

(** Trimming is determined by its description. *)

Lemma dropwhile_all (p : char -> bool) (l : str) :
  forallb p l = true -> dropwhile p l = [].
Proof.
  induction l as [|c l IH]; simpl; [reflexivity|].
  intros H. apply andb_true_iff in H. destruct H as [Hc H].
  rewrite Hc. auto.
Qed.

Lemma dropwhile_app_all (p : char -> bool) (pre s : str) :
  forallb p pre = true -> dropwhile p (pre ++ s) = dropwhile p s.
Proof.
  induction pre as [|c pre IH]; simpl; [reflexivity|].
  intros H. apply andb_true_iff in H. destruct H as [Hc H].
  rewrite Hc. auto.
Qed.

Lemma trimmed_of_unique (s t : str) : trimmed_of s t -> t = strip s.
Proof.
  intros ((pre & post & -> & Fpre & Fpost) & Hhd & Hlast).
  unfold strip, lstrip. rewrite (dropwhile_app_all _ _ _ Fpre).
  destruct t as [|c r].
  - simpl. now rewrite (dropwhile_all _ _ Fpost).
  - assert (L : dropwhile isspace ((c :: r) ++ post) = (c :: r) ++ post)
      by exact (dropwhile_fixed isspace c (r ++ post) (Hhd _ _ eq_refl)).
    rewrite L.
    destruct (exists_last (l := c :: r)) as (r' & c' & E); [discriminate|].
    rewrite E. unfold rstrip. rewrite !rev_app_distr.
    rewrite dropwhile_app_all by (rewrite forallb_rev; exact Fpost).
    change (rev [c'] ++ rev r') with (c' :: rev r').
    rewrite (dropwhile_fixed _ _ _ (Hlast _ _ E)).
    simpl. now rewrite rev_involutive.
Qed.

(** ** The matcher *)

Lemma exec_at_beginning p pos s :
  Re.exec (Re.AtBeginning :: p) pos s
  = if (pos =? 0)%nat then Re.exec p pos s else None.
Proof. reflexivity. Qed.

Lemma exec_at_end p pos s :
  Re.exec (Re.AtEnd :: p) pos s
  = if Re.at_end s then Re.exec p pos s else None.
Proof. reflexivity. Qed.

Lemma exec_literal p c pos x s :
  Re.exec (Re.Literal c :: p) pos (x :: s)
  = if (x =? c)%N then Re.exec p (S pos) s else None.
Proof. reflexivity. Qed.

Lemma exec_max_repeat p lo cls pos s :
  Re.exec (Re.MaxRepeat lo cls :: p) pos s
  = Re.repeat_greedy cls (Re.exec p) lo pos s.
Proof. reflexivity. Qed.

Lemma at_end_cases rest :
  Re.at_end rest = true -> rest = [] \/ rest = [10%N].
Proof.
  destruct rest as [|c [|c' r]]; simpl; intros H; try discriminate; auto.
  apply N.eqb_eq in H. subst. auto.
Qed.

(** A successful repetition took some run [a] of the class, at least [lo]
    long, and the rest of the pattern matched what follows. *)
Lemma repeat_greedy_sound cls k :
  forall s lo pos e,
    Re.repeat_greedy cls k lo pos s = Some e ->
    exists a b,
      s = a ++ b /\ forallb cls a = true /\ lo <= length a
      /\ k (pos + length a) b = Some e.
Proof.
  assert (Hstop : forall s lo pos e,
             (if (lo =? 0)%nat then k pos s else None) = Some e ->
             exists a b,
               s = a ++ b /\ forallb cls a = true /\ lo <= length a
               /\ k (pos + length a) b = Some e).
  { intros s lo pos e H. destruct (Nat.eqb_spec lo 0); [|discriminate].
    exists [], s. simpl. rewrite Nat.add_0_r. repeat split; auto; lia. }
  induction s as [|c s IH]; intros lo pos e H; cbn in H.
  - now apply Hstop.
  - destruct (cls c) eqn:Hc; [|now apply Hstop].
    destruct (Re.repeat_greedy cls k (pred lo) (S pos) s) as [e'|] eqn:R;
      [|now apply Hstop].
    injection H as <-. apply IH in R.
    destruct R as (a & b & E & F & L & K).
    exists (c :: a), b. simpl. rewrite Hc, F, E.
    repeat split; auto; try lia.
    rewrite <- K. f_equal. lia.
Qed.

(** Backtracking finds a match whenever some split of the text allows one. *)
Lemma repeat_greedy_complete cls k :
  forall a b lo pos e,
    forallb cls a = true -> lo <= length a ->
    k (pos + length a) b = Some e ->
    exists e', Re.repeat_greedy cls k lo pos (a ++ b) = Some e'.
Proof.
  induction a as [|c a IH]; intros b lo pos e F L K; simpl in *.
  - assert (lo = 0) by lia. subst lo. rewrite Nat.add_0_r in K.
    destruct b as [|x b]; cbn.
    + eauto.
    + destruct (cls x); [|eauto].
      destruct (Re.repeat_greedy cls k 0 (S pos) b); eauto.
  - apply andb_true_iff in F. destruct F as [Hc F]. cbn. rewrite Hc.
    destruct (IH b (pred lo) (S pos) e F) as [e' R]; [lia| |].
    + rewrite <- K. f_equal. lia.
    + rewrite R. eauto.
Qed.

Lemma email_regex_sound pos s e :
  Re.exec EMAIL_REGEX pos s = Some e ->
  pos = 0 /\
  exists l d t rest,
    s = (l ++ ch "@" :: d ++ ch "." :: t) ++ rest
    /\ email_shape l d t /\ Re.at_end rest = true
    /\ e = length (l ++ ch "@" :: d ++ ch "." :: t).
Proof.
  unfold EMAIL_REGEX. rewrite exec_at_beginning.
  destruct (Nat.eqb_spec pos 0) as [->|]; [|discriminate].
  rewrite exec_max_repeat. intros H.
  apply repeat_greedy_sound in H. destruct H as (l & b1 & -> & Fl & Ll & H).
  destruct b1 as [|x b1]; [discriminate|]. rewrite exec_literal in H.
  destruct (N.eqb_spec x (ch "@")) as [->|]; [|discriminate].
  rewrite exec_max_repeat in H.
  apply repeat_greedy_sound in H. destruct H as (d & b2 & -> & Fd & Ld & H).
  destruct b2 as [|y b2]; [discriminate|]. rewrite exec_literal in H.
  destruct (N.eqb_spec y (ch ".")) as [->|]; [|discriminate].
  rewrite exec_max_repeat in H.
  apply repeat_greedy_sound in H. destruct H as (t & rest & -> & Ft & Lt & H).
  rewrite exec_at_end in H. destruct (Re.at_end rest) eqn:Hend; [|discriminate].
  simpl in H. injection H as <-.
  split; [reflexivity|]. exists l, d, t, rest.
  split; [|split; [|split]].
  - rewrite <- app_assoc. simpl. rewrite <- app_assoc. reflexivity.
  - unfold email_shape. auto 10.
  - exact Hend.
  - rewrite length_app. simpl. rewrite length_app. simpl. lia.
Qed.

Lemma email_regex_complete l d t rest :
  email_shape l d t -> Re.at_end rest = true ->
  exists e,
    Re.exec EMAIL_REGEX 0 ((l ++ ch "@" :: d ++ ch "." :: t) ++ rest) = Some e.
Proof.
  intros (Ll & Fl & Ld & Fd & Lt & Ft) Hend.
  replace ((l ++ ch "@" :: d ++ ch "." :: t) ++ rest)
    with (l ++ ch "@" :: d ++ ch "." :: t ++ rest)
    by (rewrite <- (app_assoc l); simpl; rewrite <- (app_assoc d); reflexivity).
  unfold EMAIL_REGEX. rewrite exec_at_beginning.
  change (0 =? 0)%nat with true. cbv iota.
  assert (H3 : forall p, exists e,
             Re.exec [Re.MaxRepeat 2 alpha_set; Re.AtEnd] p (t ++ rest) = Some e).
  { intros p. rewrite exec_max_repeat.
    apply (repeat_greedy_complete _ _ t rest 2 p (p + length t) Ft Lt).
    rewrite exec_at_end, Hend. reflexivity. }
  assert (H2 : forall p, exists e,
             Re.exec [Re.MaxRepeat 1 domain_set; Re.Literal (ch ".");
                      Re.MaxRepeat 2 alpha_set; Re.AtEnd]
                     p (d ++ ch "." :: t ++ rest) = Some e).
  { intros p. rewrite exec_max_repeat.
    destruct (H3 (S (p + length d))) as [e He].
    apply (repeat_greedy_complete _ _ d _ 1 p e Fd Ld).
    rewrite exec_literal, N.eqb_refl. exact He. }
  rewrite exec_max_repeat.
  destruct (H2 (S (0 + length l))) as [e He].
  apply (repeat_greedy_complete _ _ l _ 1 0 e Fl Ll).
  rewrite exec_literal, N.eqb_refl. exact He.
Qed.

Lemma truthy_true {A : Type} (m : option A) :
  truthy m = true <-> exists x, m = Some x.
Proof.
  destruct m; simpl; split; eauto; try discriminate.
  intros [x H]. discriminate.
Qed.

Lemma validate_format_iff (s : str) :
  validate_format s = true <-> matches_email_pattern (strip s).
Proof.
  unfold validate_format, Re.match_. rewrite truthy_true. split.
  - intros [e H]. apply email_regex_sound in H.
    destruct H as (_ & l & d & t & rest & E & Sh & Hend & _).
    destruct (at_end_cases _ Hend) as [-> | ->].
    + rewrite app_nil_r in E. exists l, d, t. split; [exact E | exact Sh].
    + apply strip_last in E. discriminate.
  - intros (l & d & t & E & Sh).
    rewrite E, <- (app_nil_r (l ++ _)).
    now apply email_regex_complete.
Qed.

(** C3. [validate_format] trims leading and trailing whitespace (the
    trimmed string is the only one that the description of trimming
    allows) and then answers true exactly when the whole trimmed string
    has the shape local part, at sign, domain, dot, two or more letters;
    being a function into [bool] it answers on every string. *)
Theorem validate_format_spec (s : str) :
  trimmed_of s (strip s)
  /\ (forall t, trimmed_of s t ->
      (validate_format s = true <-> matches_email_pattern t))
  /\ (validate_format s = true <-> matches_email_pattern (strip s))
  /\ (validate_format s = false <-> ~ matches_email_pattern (strip s)).
Proof.
  split; [apply strip_trims|]. split; [|split].
  - intros t Ht. rewrite (trimmed_of_unique _ _ Ht). apply validate_format_iff.
  - apply validate_format_iff.
  - rewrite <- validate_format_iff.
    destruct (validate_format s); split; intros; try discriminate; auto.
    exfalso; auto.
Qed.

(** ** The at sign and the domain *)

Lemma forallb_excludes (p : char -> bool) (x : char) (l : str) :
  forallb p l = true -> p x = false -> ~ In x l.
Proof.
  intros F Hx Hin. rewrite forallb_forall in F.
  apply F in Hin. congruence.
Qed.

Lemma split_no_sep sep (s : str) : ~ In sep s -> split sep s = [s].
Proof.
  induction s as [|c s IH]; simpl; intros H; [reflexivity|].
  destruct (N.eqb_spec c sep) as [->|_]; [exfalso; auto|].
  rewrite IH by tauto. reflexivity.
Qed.

Lemma split_at_first sep (l r : str) :
  ~ In sep l -> split sep (l ++ sep :: r) = l :: split sep r.
Proof.
  induction l as [|c l IH]; simpl; intros H.
  - now rewrite N.eqb_refl.
  - destruct (N.eqb_spec c sep) as [->|_]; [exfalso; auto|].
    rewrite IH by tauto. reflexivity.
Qed.

Lemma count_occ_absent (x : char) (l : str) :
  ~ In x l -> count_occ N.eq_dec l x = 0.
Proof. apply count_occ_not_In. Qed.

Lemma email_shape_at_sign l d t :
  email_shape l d t ->
  ~ In (ch "@") l /\ ~ In (ch "@") (d ++ ch "." :: t).
Proof.
  intros (_ & Fl & _ & Fd & _ & Ft). split.
  - now apply (forallb_excludes local_set).
  - intros Hin. apply in_app_or in Hin. destruct Hin as [Hin | [Hin | Hin]].
    + now apply (forallb_excludes domain_set (ch "@") d).
    + discriminate.
    + now apply (forallb_excludes alpha_set (ch "@") t).
Qed.

Lemma format_valid_parts (email : str) :
  validate_format email = true ->
  exists local domain,
    strip email = local ++ ch "@" :: domain
    /\ ~ In (ch "@") local /\ ~ In (ch "@") domain.
Proof.
  intros H. apply validate_format_iff in H.
  destruct H as (l & d & t & E & Sh).
  destruct (email_shape_at_sign _ _ _ Sh) as [Hl Hd].
  exists l, (d ++ ch "." :: t). auto.
Qed.

(** ** The probes *)

Lemma bind_ret_l {A B : Type} (a : A) (f : A -> IO B) :
  (x <- ret a ;; f x) = f a.
Proof. unfold bind, ret. destruct (f a). reflexivity. Qed.

Lemma check_mx_records_cases net domain :
  check_mx_records net domain
  = ([MX_query domain],
     match mx_answer net domain with
     | Ret mx_records => Ret (0 <? length mx_records)
     | Raise e => if is_Exception e then Ret false else Raise e
     end).
Proof.
  unfold check_mx_records, dns_resolver_resolve_MX, try_except, bind.
  destruct (mx_answer net domain) as [recs | e]; [reflexivity|].
  destruct e; reflexivity.
Qed.

Lemma check_domain_exists_cases net domain :
  check_domain_exists net domain
  = ([Host_lookup domain],
     match host_answer net domain with
     | Ret _ => Ret true
     | Raise e => if is_gaierror e then Ret false else Raise e
     end).
Proof.
  unfold check_domain_exists, socket_gethostbyname, try_except, bind.
  destruct (host_answer net domain) as [a | e]; [reflexivity|].
  destruct e; reflexivity.
Qed.

(** ** [validate_email] *)

Lemma validate_email_format_fails net email check_mx check_domain :
  validate_format email = false ->
  validate_email net email check_mx check_domain
  = ([], Ret {| email := strip email; valid_format := false; has_mx := None;
                domain_exists := None; status := invalid |}).
Proof.
  intros H. unfold validate_email.
  rewrite validate_format_strip, H. reflexivity.
Qed.

(** Every result for an address of valid format has this form: the probes
    that were requested were each called once, on the text after the at
    sign, and their answers are in the result. *)
Lemma validate_email_format_ok_full net email check_mx check_domain log r :
  validate_format email = true ->
  validate_email net email check_mx check_domain = (log, Ret r) ->
  exists l dom,
    strip email = l ++ ch "@" :: dom /\ ~ In (ch "@") l
    /\ log = (if check_mx then [MX_query dom] else [])
             ++ (if check_domain then [Host_lookup dom] else [])
    /\ r = {| email := strip email; valid_format := true;
              has_mx :=
                if check_mx
                then Some match mx_answer net dom with
                          | Ret recs => 0 <? length recs
                          | Raise _ => false
                          end
                else None;
              domain_exists :=
                if check_domain
                then Some match host_answer net dom with
                          | Ret _ => true
                          | Raise _ => false
                          end
                else None;
              status :=
                if (check_mx
                    && negb match mx_answer net dom with
                            | Ret recs => 0 <? length recs
                            | Raise _ => false
                            end)
                   || (check_domain
                       && negb match host_answer net dom with
                               | Ret _ => true
                               | Raise _ => false
                               end)
                then doubtful else valid |}.
Proof.
  intros H R. destruct (format_valid_parts _ H) as (l & dom & E & Hl & Hd).
  exists l, dom. split; [exact E|]. split; [exact Hl|].
  unfold validate_email in R.
  rewrite validate_format_strip, H in R. cbv beta iota zeta in R.
  change (negb true) with false in R. cbv iota in R.
  rewrite E, (split_at_first _ _ _ Hl), (split_no_sep _ _ Hd) in R.
  unfold getitem in R. cbn [nth_error] in R. rewrite bind_ret_l in R.
  rewrite check_mx_records_cases, check_domain_exists_cases in R.
  rewrite <- E in R.
  destruct check_mx, check_domain;
    destruct (mx_answer net dom) as [[|rec recs] | em];
    destruct (host_answer net dom) as [a | eh];
    try destruct (is_Exception em); try destruct (is_gaierror eh);
    cbn in R; try discriminate;
    injection R as <- <-; split; reflexivity.
Qed.

Lemma validate_email_format_ok net email check_mx check_domain log r :
  validate_format email = true ->
  validate_email net email check_mx check_domain = (log, Ret r) ->
  exists bm bd,
    r = {| email := strip email; valid_format := true;
           has_mx := if check_mx then Some bm else None;
           domain_exists := if check_domain then Some bd else None;
           status := if (check_mx && negb bm) || (check_domain && negb bd)
                     then doubtful else valid |}.
Proof.
  intros H R.
  destruct (validate_email_format_ok_full _ _ _ _ _ _ H R)
    as (l & dom & _ & _ & _ & ->).
  eauto.
Qed.

(** A lookup that failed is in the result as false. *)
Lemma failed_lookup_recorded_false net email check_mx check_domain log r :
  validate_format email = true ->
  validate_email net email check_mx check_domain = (log, Ret r) ->
  exists l dom,
    strip email = l ++ ch "@" :: dom /\ ~ In (ch "@") l
    /\ (check_mx = true -> forall e, mx_answer net dom = Raise e ->
        has_mx r = Some false)
    /\ (check_domain = true -> forall e, host_answer net dom = Raise e ->
        domain_exists r = Some false).
Proof.
  intros H R.
  destruct (validate_email_format_ok_full _ _ _ _ _ _ H R)
    as (l & dom & E & Hl & _ & ->).
  exists l, dom. split; [exact E|]. split; [exact Hl|]. cbn.
  split; intros -> e He; now rewrite He.
Qed.

Lemma validate_email_returns net email check_mx check_domain :
  (forall d e, check_mx = true -> mx_answer net d = Raise e ->
               is_Exception e = true) ->
  (forall d e, check_domain = true -> host_answer net d = Raise e ->
               is_gaierror e = true) ->
  exists log r, validate_email net email check_mx check_domain = (log, Ret r).
Proof.
  intros Hmx Hhost. destruct (validate_format email) eqn:H.
  - destruct (format_valid_parts _ H) as (l & dom & E & Hl & Hd).
    unfold validate_email.
    rewrite validate_format_strip, H. cbv beta iota zeta.
    change (negb true) with false. cbv iota.
    rewrite E, (split_at_first _ _ _ Hl), (split_no_sep _ _ Hd).
    unfold getitem. cbn [nth_error]. rewrite bind_ret_l.
    rewrite check_mx_records_cases, check_domain_exists_cases.
    destruct check_mx, check_domain;
      destruct (mx_answer net dom) as [[|rec recs] | em] eqn:Em;
      destruct (host_answer net dom) as [a | eh] eqn:Eh;
      try rewrite (Hmx _ _ eq_refl Em); try rewrite (Hhost _ _ eq_refl Eh);
      cbn; eauto.
  - rewrite (validate_email_format_fails _ _ _ _ H). eauto.
Qed.

(** C1. For an address that passes the format check, the result's status
    is doubtful exactly when a requested MX check said no or a requested
    domain check said no, and valid otherwise; it is never invalid, and a
    check that was skipped is never the reason for a doubtful status. *)
Theorem classifier_verdict net email check_mx check_domain log r :
  validate_format email = true ->
  validate_email net email check_mx check_domain = (log, Ret r) ->
  let negative :=
    (check_mx = true /\ has_mx r = Some false)
    \/ (check_domain = true /\ domain_exists r = Some false) in
  valid_format r = true
  /\ (status r = doubtful <-> negative)
  /\ (status r = valid <-> ~ negative)
  /\ status r <> invalid
  /\ (check_mx = false ->
      (status r = doubtful <->
       check_domain = true /\ domain_exists r = Some false))
  /\ (check_domain = false ->
      (status r = doubtful <-> check_mx = true /\ has_mx r = Some false))
  /\ (check_mx = false -> check_domain = false -> status r = valid).
Proof.
  intros H R.
  destruct (validate_email_format_ok _ _ _ _ _ _ H R) as (bm & bd & ->).
  destruct check_mx, check_domain, bm, bd; cbn;
    repeat split; try discriminate; try reflexivity; intros;
    try tauto; try (exfalso; intuition discriminate);
    try (intros [[_ ?]|[_ ?]]; discriminate).
Qed.

(** C2. For an address that fails the format check, [validate_email]
    returns at once: the result has valid_format false, both signals
    unknown and status invalid, whatever checks were requested, and no
    network request was made. *)
Theorem format_failure_short_circuits net email check_mx check_domain :
  validate_format email = false ->
  validate_email net email check_mx check_domain
  = ([], Ret {| email := strip email; valid_format := false; has_mx := None;
                domain_exists := None; status := invalid |}).
Proof. apply validate_email_format_fails. Qed.

(** In a returned result, a lookup that raised is recorded as false; the
    domain is the one [split('@')[1]] gives. *)
Lemma lookup_failures_recorded net email check_mx check_domain log r dom e :
  validate_format email = true ->
  validate_email net email check_mx check_domain = (log, Ret r) ->
  nth_error (split (ch "@") (strip email)) 1 = Some dom ->
  (check_mx = true -> mx_answer net dom = Raise e -> has_mx r = Some false)
  /\ (check_domain = true -> host_answer net dom = Raise e ->
      domain_exists r = Some false).
Proof.
  intros H R Hdom.
  destruct (format_valid_parts _ H) as (l & dom' & E & Hl & Hd).
  rewrite E, (split_at_first _ _ _ Hl), (split_no_sep _ _ Hd) in Hdom.
  cbn [nth_error] in Hdom. injection Hdom as <-.
  unfold validate_email in R.
  rewrite validate_format_strip, H in R. cbv beta iota zeta in R.
  change (negb true) with false in R. cbv iota in R.
  rewrite E, (split_at_first _ _ _ Hl), (split_no_sep _ _ Hd) in R.
  unfold getitem in R. cbn [nth_error] in R. rewrite bind_ret_l in R.
  rewrite check_mx_records_cases, check_domain_exists_cases in R.
  destruct check_mx, check_domain;
    destruct (mx_answer net dom') as [[|rec recs] | em];
    destruct (host_answer net dom') as [a | eh];
    try destruct (is_Exception em); try destruct (is_gaierror eh);
    cbn in R; try discriminate;
    injection R as _ <-; split; intros; try discriminate; reflexivity.
Qed.

(** C4, as amended. In every result: for an address of valid format a
    signal is unknown exactly when its check was not requested; for an
    address of invalid format both signals are unknown whatever was
    requested; a check that was not requested always leaves its signal
    unknown; and a signal is never unknown because a lookup failed: a
    requested lookup that failed is recorded as false. *)
Theorem unknown_signals_of_results net email check_mx check_domain log r :
  validate_email net email check_mx check_domain = (log, Ret r) ->
  (valid_format r = true ->
   (has_mx r = None <-> check_mx = false)
   /\ (domain_exists r = None <-> check_domain = false))
  /\ (valid_format r = false -> has_mx r = None /\ domain_exists r = None)
  /\ (check_mx = false -> has_mx r = None)
  /\ (check_domain = false -> domain_exists r = None)
  /\ (forall dom e,
         valid_format r = true ->
         nth_error (split (ch "@") (strip email)) 1 = Some dom ->
         (check_mx = true -> mx_answer net dom = Raise e ->
          has_mx r = Some false)
         /\ (check_domain = true -> host_answer net dom = Raise e ->
             domain_exists r = Some false)).
Proof.
  intros R. destruct (validate_format email) eqn:H.
  - split; [|split; [|split; [|split]]].
    + destruct (validate_email_format_ok _ _ _ _ _ _ H R) as (bm & bd & ->).
      destruct check_mx, check_domain; cbn;
        repeat split; intros; try discriminate; try reflexivity.
    + destruct (validate_email_format_ok _ _ _ _ _ _ H R) as (bm & bd & ->).
      cbn. discriminate.
    + destruct (validate_email_format_ok _ _ _ _ _ _ H R) as (bm & bd & ->).
      intros ->. reflexivity.
    + destruct (validate_email_format_ok _ _ _ _ _ _ H R) as (bm & bd & ->).
      intros ->. reflexivity.
    + intros dom e _ Hdom.
      exact (lookup_failures_recorded _ _ _ _ _ _ _ _ H R Hdom).
  - rewrite (validate_email_format_fails _ _ _ _ H) in R.
    injection R as _ <-. cbn.
    repeat split; intros; try discriminate; try reflexivity.
Qed.

(** C5. Whenever the MX query ends with an answer or with an error (any
    exception deriving from [Exception]), the MX probe makes that one query
    and returns a boolean, true exactly when the answer has at least one
    record; it raises nothing. *)
Theorem mx_probe_contract net domain :
  (forall e, mx_answer net domain = Raise e -> is_Exception e = true) ->
  exists b,
    check_mx_records net domain = ([MX_query domain], Ret b)
    /\ (b = true <->
        exists mx_records,
          mx_answer net domain = Ret mx_records /\ 1 <= length mx_records).
Proof.
  intros Herr. rewrite check_mx_records_cases.
  destruct (mx_answer net domain) as [recs | e] eqn:E.
  - exists (0 <? length recs). split; [reflexivity|].
    rewrite Nat.ltb_lt. split.
    + intros L. exists recs. split; [reflexivity | lia].
    + intros (recs' & E' & L). injection E' as <-. lia.
  - rewrite (Herr e eq_refl). exists false. split; [reflexivity|].
    split; [discriminate|]. intros (recs' & E' & _). discriminate.
Qed.

(** No answer, a missing domain, a timeout and a malformed name are all
    errors of that kind. *)
Lemma resolver_errors_are_exceptions :
  map is_Exception
      [NoAnswer; NXDOMAIN; LifetimeTimeout; NoNameservers; EmptyLabel;
       LabelTooLong; OSError; UnicodeError]
  = [true; true; true; true; true; true; true; true]
  /\ forall name, is_Exception (OtherException name) = true.
Proof. split; reflexivity. Qed.

(** C6. On a host where looking up [a..com] ends in [UnicodeError] (the
    idna codec refuses the empty label), the domain probe lets the
    exception through instead of returning false. *)
Theorem domain_probe_lets_fault_through :
  check_domain_exists offline (lit "a..com")
  = ([Host_lookup (lit "a..com")], Raise UnicodeError).
Proof. reflexivity. Qed.

(** The probe returns false for [socket.gaierror] only. *)
Lemma domain_probe_outcomes net domain :
  snd (check_domain_exists net domain)
  = match host_answer net domain with
    | Ret _ => Ret true
    | Raise gaierror => Ret false
    | Raise e => Raise e
    end.
Proof.
  rewrite check_domain_exists_cases. simpl.
  destruct (host_answer net domain) as [a | e]; [reflexivity|].
  destruct e; reflexivity.
Qed.

(** ** Extraction from text *)

Lemma findall_from_after_start p pos skip s :
  0 < pos -> Re.findall_from (Re.AtBeginning :: p) pos skip s = [].
Proof.
  revert pos skip. induction s as [|c s IH]; intros pos skip Hpos.
  - simpl. destruct skip; [|reflexivity].
    destruct pos; [lia | reflexivity].
  - cbn [Re.findall_from]. destruct skip as [|k].
    + rewrite exec_at_beginning.
      destruct pos; [lia|]. simpl (S pos =? 0)%nat. cbv iota.
      apply IH. lia.
    + apply IH. lia.
Qed.

(** Because the pattern starts with [^], [re.findall] can only report a
    match that starts at the first character, and because it ends with [$]
    that match runs to the end of the text. *)
Lemma extract_emails_from_text_cases (text : str) :
  extract_emails_from_text text
  = match Re.match_ EMAIL_REGEX text with
    | Some e => [firstn e text]
    | None => []
    end.
Proof.
  unfold extract_emails_from_text, Re.findall, Re.match_.
  destruct text as [|c s]; [reflexivity|].
  cbn [Re.findall_from].
  destruct (Re.exec EMAIL_REGEX 0 (c :: s)) as [e|].
  - unfold EMAIL_REGEX at 1. rewrite findall_from_after_start by lia.
    rewrite Nat.sub_0_r. reflexivity.
  - unfold EMAIL_REGEX. now rewrite findall_from_after_start by lia.
Qed.

(** C7. The address [a@b.co] has the format of an address, yet extraction
    from a text that contains it between other words finds nothing. *)
Theorem extract_misses_embedded_address :
  validate_format (lit "a@b.co") = true
  /\ extract_emails_from_text (lit "mail a@b.co now") = [].
Proof. split; reflexivity. Qed.

(** ** Domain extraction *)

(** C10. When the format check succeeds the trimmed address contains the
    at sign exactly once, so that splitting on it gives a second piece:
    [split('@')[1]] does not fail and is the text after the first at
    sign. *)
Theorem domain_extraction_defined (email : str) :
  validate_format email = true ->
  count_occ N.eq_dec (strip email) (ch "@") = 1
  /\ exists local domain,
      strip email = local ++ ch "@" :: domain
      /\ ~ In (ch "@") local
      /\ getitem (split (ch "@") (strip email)) 1 = ret domain.
Proof.
  intros H. destruct (format_valid_parts _ H) as (l & dom & E & Hl & Hd).
  split.
  - rewrite E, count_occ_app, count_occ_cons_eq by reflexivity.
    pose proof (count_occ_absent _ _ Hl) as Cl.
    pose proof (count_occ_absent _ _ Hd) as Cd.
    unfold char in *. rewrite Cl, Cd. reflexivity.
  - exists l, dom. split; [exact E|]. split; [exact Hl|].
    rewrite E, (split_at_first _ _ _ Hl), (split_no_sep _ _ Hd). reflexivity.
Qed.

(** ** The batch *)

Lemma insert_at_perm {A : Type} (k : nat) (x : A) (l : list A) :
  Permutation (insert_at k x l) (x :: l).
Proof.
  revert k. induction l as [|y l IH]; intros [|k]; simpl; auto.
  rewrite IH. apply perm_swap.
Qed.

Lemma as_completed_perm {A : Type} (sched : list nat) (fs : list A) :
  Permutation (as_completed sched fs) fs.
Proof.
  revert sched. induction fs as [|f fs IH]; intros sched; simpl; auto.
  rewrite insert_at_perm. auto.
Qed.

Lemma insert_at_map {A B : Type} (g : A -> B) k x l :
  insert_at k (g x) (map g l) = map g (insert_at k x l).
Proof.
  revert k. induction l as [|y l IH]; intros [|k]; simpl; auto.
  now rewrite IH.
Qed.

Lemma as_completed_map {A B : Type} (g : A -> B) sched fs :
  as_completed sched (map g fs) = map g (as_completed sched fs).
Proof.
  revert sched. induction fs as [|f fs IH]; intros sched; simpl; auto.
  now rewrite IH, insert_at_map.
Qed.

Lemma as_completed_one {A : Type} (sched : list nat) (f : A) :
  as_completed sched [f] = [f].
Proof. simpl. destruct (hd 0 sched); reflexivity. Qed.

Lemma as_completed_two {A : Type} (sched : list nat) (f g : A) :
  as_completed sched [f; g] = [f; g] \/ as_completed sched [f; g] = [g; f].
Proof.
  change (as_completed sched [f; g])
    with (insert_at (hd 0 sched) f (as_completed (tl sched) [g])).
  rewrite as_completed_one.
  destruct (hd 0 sched) as [|k]; simpl; auto.
  destruct k; auto.
Qed.

(** When every call returns, the loop prints one progress line per call,
    the k-th with [progress k total], and gathers every result. *)
Lemma collect_all_returned total :
  forall rs acc processed,
    collect total (map Ret rs) acc processed
    = (map (fun k => Progress (progress k total))
           (seq (processed + 1) (length rs)),
       Ret (acc ++ rs)).
Proof.
  induction rs as [|r rs IH]; intros acc processed; simpl.
  - now rewrite app_nil_r.
  - rewrite IH, <- app_assoc. simpl.
    replace (processed + 1 + 1) with (S (processed + 1)) by lia.
    reflexivity.
Qed.

(** When a call raised, the loop stops there: the results gathered so far
    are lost to the caller and the progress lines stop. *)
Lemma collect_stops_at_raise total :
  forall rs e rest acc processed,
    collect total (map Ret rs ++ Raise e :: rest) acc processed
    = (map (fun k => Progress (progress k total))
           (seq (processed + 1) (length rs)),
       Raise e).
Proof.
  induction rs as [|r rs IH]; intros e rest acc processed; simpl.
  - reflexivity.
  - rewrite IH.
    replace (processed + 1 + 1) with (S (processed + 1)) by lia.
    reflexivity.
Qed.

(** The batch is complete whenever every call of [validate_email] returns:
    one result per address, in the order of completion, and one progress
    line per result. *)
Lemma validate_concurrently_complete net emails check_mx check_domain
      workers sched :
  (0 < workers)%Z ->
  Forall (fun email =>
            exists r, snd (validate_email net email check_mx check_domain)
                      = Ret r) emails ->
  exists rs results,
    map (fun email => snd (validate_email net email check_mx check_domain))
        emails = map Ret rs
    /\ results = as_completed sched rs
    /\ validate_concurrently net emails check_mx check_domain workers sched
       = (map (fun k => Progress (progress k (length emails)))
              (seq 1 (length emails)),
          Ret results)
    /\ Permutation results rs
    /\ length results = length emails.
Proof.
  intros Hw Hall.
  assert (Hrs : exists rs,
             map (fun email =>
                    snd (validate_email net email check_mx check_domain))
                 emails = map Ret rs).
  { induction Hall as [|email emails [r Hr] _ [rs IH]].
    - exists []. reflexivity.
    - exists (r :: rs). simpl. now rewrite Hr, IH. }
  destruct Hrs as [rs Hrs]. exists rs, (as_completed sched rs).
  assert (Hlen : length rs = length emails).
  { apply (f_equal (@length _)) in Hrs. now rewrite !length_map in Hrs. }
  split; [exact Hrs|]. split; [reflexivity|]. split; [|split].
  - unfold validate_concurrently, ThreadPoolExecutor.
    destruct (Z.leb_spec workers 0); [lia|].
    rewrite Hrs, as_completed_map, collect_all_returned. simpl.
    rewrite (Permutation_length (as_completed_perm sched rs)), Hlen.
    reflexivity.
  - apply as_completed_perm.
  - now rewrite (Permutation_length (as_completed_perm sched rs)).
Qed.

(** With no address in the file nothing is validated: the only message is
    that no emails were found. *)
Lemma validate_file_no_emails net lines check_mx check_domain output_file
      format workers sched :
  read_emails lines = [] ->
  validate_file net (Ret lines) check_mx check_domain output_file format
                workers sched
  = ([No_emails_found], Ret tt).
Proof. intros H. unfold validate_file. now rewrite H. Qed.

(** C8. A batch of the one address [user@a..com], checks on, ten workers,
    on a host where looking up [a..com] ends in [UnicodeError]: whatever
    the schedule, the batch ends with that exception and no result
    collection, where one result was due. *)
Theorem batch_loses_results_on_probe_fault (sched : list nat) :
  validate_format (lit "user@a..com") = true
  /\ validate_concurrently offline [lit "user@a..com"] true true 10 sched
     = ([], Raise UnicodeError).
Proof.
  split; [reflexivity|].
  unfold validate_concurrently. cbn [ThreadPoolExecutor Z.leb Z.compare].
  cbn [map]. rewrite as_completed_one. reflexivity.
Qed.

(** C9. A batch of [a@b.co] and [user@a..com] on the same host: whatever
    the schedule, the batch ends with the exception after no progress line
    or after the one line of 50 percent; 100 percent is never printed. *)
Theorem progress_stops_short_of_100 (sched : list nat) :
  let run :=
    validate_concurrently offline [lit "a@b.co"; lit "user@a..com"]
                          true true 10 sched in
  snd run = Raise UnicodeError
  /\ (fst run = [] \/ fst run = [Progress 50%float]).
Proof.
  unfold validate_concurrently. cbn [ThreadPoolExecutor Z.leb Z.compare].
  cbn [map].
  destruct (as_completed_two sched
              (snd (validate_email offline (lit "a@b.co") true true))
              (snd (validate_email offline (lit "user@a..com") true true)))
    as [-> | ->].
  - split; [reflexivity | right; reflexivity].
  - split; [reflexivity | left; reflexivity].
Qed.

(** ** Runs on concrete inputs *)

Example validate_format_plain : validate_format (lit "user@example.com") = true.
Proof. reflexivity. Qed.

Example validate_format_no_at : validate_format (lit "not-an-email") = false.
Proof. reflexivity. Qed.

Example validate_format_padded : validate_format (lit "  a@b.co  ") = true.
Proof. reflexivity. Qed.

Example validate_format_short_tld : validate_format (lit "a@b.c") = false.
Proof. reflexivity. Qed.

Example validate_format_two_at : validate_format (lit "a@b@c.de") = false.
Proof. reflexivity. Qed.

Example validate_format_inner_space : validate_format (lit "a b@c.de") = false.
Proof. reflexivity. Qed.

Example findall_whole_line :
  Re.findall EMAIL_REGEX (lit "a@b.co" ++ [10%N]) = [lit "a@b.co"].
Proof. reflexivity. Qed.

Example findall_second_line :
  Re.findall EMAIL_REGEX (lit "a@b.co" ++ [10%N] ++ lit "c@d.ef") = [].
Proof. reflexivity. Qed.

Example scenario_not_an_email :
  validate_email example_net (lit "not-an-email") true true
  = ([], Ret (malformed_result "not-an-email")).
Proof. reflexivity. Qed.

Example scenario_resolvable :
  validate_email example_net (lit "user@example.com") true true
  = ([MX_query (lit "example.com"); Host_lookup (lit "example.com")],
     Ret (example_result "user@example.com" (Some true) (Some true) valid)).
Proof. reflexivity. Qed.

Example scenario_unresolvable :
  snd (validate_email example_net (lit "user@nonexistent-domain-xyz123.test")
                      true true)
  = Ret (example_result "user@nonexistent-domain-xyz123.test"
                        (Some false) (Some false) doubtful).
Proof. reflexivity. Qed.

Example scenario_checks_skipped :
  validate_email example_net (lit "user@example.com") false false
  = ([], Ret (example_result "user@example.com" None None valid)).
Proof. reflexivity. Qed.

Example scenario_batch_of_three :
  validate_file example_net
    (Ret [lit "not-an-email"; lit "user@example.com";
          lit "user@nonexistent-domain-xyz123.test"])
    true true None (lit "csv") 2 [2; 0; 0]
  = ([Validating 3; Progress (progress 1 3); Progress (progress 2 3);
      Progress 100%float; Validation_complete; Summary 1 1 1],
     Ret tt).
Proof. reflexivity. Qed.

Example validate_email_probe_fault :
  validate_email offline (lit "user@a..com") true true
  = ([MX_query (lit "a..com"); Host_lookup (lit "a..com")],
     Raise UnicodeError).
Proof. reflexivity. Qed.

Example validate_email_probe_fault_skipped :
  validate_email offline (lit "user@a..com") true false
  = ([MX_query (lit "a..com")],
     Ret (example_result "user@a..com" (Some false) None doubtful)).
Proof. reflexivity. Qed.

Example validate_file_no_workers :
  validate_file example_net (Ret [lit "user@example.com"]) true true None
                (lit "csv") 0 []
  = ([Validating 1], Raise ValueError).
Proof. reflexivity. Qed.

(** ** Instances of the conditional statements *)

Lemma classifier_verdict_witness :
  let r := example_result "user@nonexistent-domain-xyz123.test"
                          (Some false) (Some false) doubtful in
  let negative :=
    (true = true /\ has_mx r = Some false)
    \/ (true = true /\ domain_exists r = Some false) in
  valid_format r = true
  /\ (status r = doubtful <-> negative)
  /\ (status r = valid <-> ~ negative)
  /\ status r <> invalid
  /\ (true = false ->
      (status r = doubtful <-> true = true /\ domain_exists r = Some false))
  /\ (true = false ->
      (status r = doubtful <-> true = true /\ has_mx r = Some false))
  /\ (true = false -> true = false -> status r = valid).
Proof.
  apply (classifier_verdict example_net
           (lit "user@nonexistent-domain-xyz123.test") true true
           [MX_query (lit "nonexistent-domain-xyz123.test");
            Host_lookup (lit "nonexistent-domain-xyz123.test")]).
  - reflexivity.
  - reflexivity.
Defined.

Lemma format_failure_short_circuits_witness :
  validate_format (lit "not-an-email") = false
  /\ validate_email offline (lit "not-an-email") true true
     = ([], Ret {| email := strip (lit "not-an-email"); valid_format := false;
                   has_mx := None; domain_exists := None;
                   status := invalid |}).
Proof.
  split; [reflexivity|].
  apply (format_failure_short_circuits offline (lit "not-an-email") true true).
  reflexivity.
Defined.

Lemma unknown_signals_of_results_witness :
  let address := lit "user@nonexistent-domain-xyz123.test" in
  let r := example_result "user@nonexistent-domain-xyz123.test"
                          (Some false) (Some false) doubtful in
  (valid_format r = true ->
   (has_mx r = None <-> true = false)
   /\ (domain_exists r = None <-> true = false))
  /\ (valid_format r = false -> has_mx r = None /\ domain_exists r = None)
  /\ (true = false -> has_mx r = None)
  /\ (true = false -> domain_exists r = None)
  /\ (forall dom e,
         valid_format r = true ->
         nth_error (split (ch "@") (strip address)) 1 = Some dom ->
         (true = true -> mx_answer example_net dom = Raise e ->
          has_mx r = Some false)
         /\ (true = true -> host_answer example_net dom = Raise e ->
             domain_exists r = Some false)).
Proof.
  apply (unknown_signals_of_results example_net
           (lit "user@nonexistent-domain-xyz123.test") true true
           [MX_query (lit "nonexistent-domain-xyz123.test");
            Host_lookup (lit "nonexistent-domain-xyz123.test")]).
  reflexivity.
Defined.

(** On that network both lookups for the domain of the address above do
    fail, so the last clause speaks of a real failure. *)
Example lookups_fail_for_unknown_domain :
  nth_error (split (ch "@") (strip (lit "user@nonexistent-domain-xyz123.test")))
            1
  = Some (lit "nonexistent-domain-xyz123.test")
  /\ mx_answer example_net (lit "nonexistent-domain-xyz123.test")
     = Raise NXDOMAIN
  /\ host_answer example_net (lit "nonexistent-domain-xyz123.test")
     = Raise gaierror.
Proof. repeat split. Qed.

Lemma mx_probe_contract_witness :
  exists b,
    check_mx_records offline (lit "example.com")
    = ([MX_query (lit "example.com")], Ret b)
    /\ (b = true <->
        exists mx_records,
          mx_answer offline (lit "example.com") = Ret mx_records
          /\ 1 <= length mx_records).
Proof.
  apply (mx_probe_contract offline (lit "example.com")).
  simpl. intros e H. injection H as <-. reflexivity.
Defined.

Lemma domain_extraction_defined_witness :
  count_occ N.eq_dec (strip (lit "user@example.com")) (ch "@") = 1
  /\ exists local domain,
      strip (lit "user@example.com") = local ++ ch "@" :: domain
      /\ ~ In (ch "@") local
      /\ getitem (split (ch "@") (strip (lit "user@example.com"))) 1
         = ret domain.
Proof.
  apply (domain_extraction_defined (lit "user@example.com")).
  reflexivity.
Defined.

(** C4, as stated, fails: for the malformed [not-an-email] with both
    checks requested the result holds an unknown MX signal, so the signal
    is not unknown only when its check was not requested. *)
Lemma unknown_although_requested :
  validate_email offline (lit "not-an-email") true true
  = ([], Ret (malformed_result "not-an-email"))
  /\ ~ (has_mx (malformed_result "not-an-email") = None <-> true = false).
Proof.
  split; [reflexivity|].
  intros [H _]. specialize (H eq_refl). discriminate.
Qed.

(** * Further properties of the script *)

(** ** Whitespace around an address *)

Lemma strip_padding (pre s post : str) :
  forallb isspace pre = true -> forallb isspace post = true ->
  strip (pre ++ s ++ post) = strip s.
Proof.
  intros Fpre Fpost. symmetry. apply trimmed_of_unique.
  destruct (strip_trims s) as ((p1 & p2 & E & F1 & F2) & Hh & Hl).
  remember (strip s) as t eqn:Ht. clear Ht. subst s.
  split; [|split; assumption].
  exists (pre ++ p1), (p2 ++ post). rewrite !forallb_app, Fpre, Fpost, F1, F2.
  split; [|auto]. now rewrite <- !app_assoc.
Qed.

Lemma forallb_weaken (p q : char -> bool) (l : str) :
  (forall c, p c = true -> q c = true) ->
  forallb p l = true -> forallb q l = true.
Proof.
  intros Hpq. rewrite !forallb_forall. auto.
Qed.

Lemma domain_set_local c : domain_set c = true -> local_set c = true.
Proof.
  unfold domain_set, local_set. rewrite !orb_true_iff. tauto.
Qed.

Lemma alpha_set_local c : alpha_set c = true -> local_set c = true.
Proof.
  unfold alpha_set, local_set. rewrite !orb_true_iff. tauto.
Qed.

(** X1. Whitespace before and after an address does not change the answer
    of the format check. *)
Theorem validate_format_ignores_padding (pre s post : str) :
  forallb isspace pre = true -> forallb isspace post = true ->
  validate_format (pre ++ s ++ post) = validate_format s.
Proof.
  intros Fpre Fpost. unfold validate_format.
  now rewrite (strip_padding _ _ _ Fpre Fpost).
Qed.

Lemma validate_format_ignores_padding_witness :
  validate_format (lit "  " ++ lit "user@example.com" ++ [10%N])
  = validate_format (lit "user@example.com").
Proof.
  apply (validate_format_ignores_padding (lit "  ") (lit "user@example.com")
           [10%N]); reflexivity.
Defined.

(** X2. An address that passes the format check is made, once trimmed, of
    ASCII letters, digits and the characters . _ % + - @ only: no space
    inside, no character outside ASCII. *)
Theorem format_valid_characters (s : str) :
  validate_format s = true ->
  forallb (fun c => local_set c || (c =? ch "@")%N) (strip s) = true.
Proof.
  intros H. apply validate_format_iff in H.
  destruct H as (l & d & t & -> & (_ & Fl & _ & Fd & _ & Ft)).
  assert (W : forall p : char -> bool,
             (forall c, p c = true -> local_set c = true) ->
             forall x, forallb p x = true ->
                       forallb (fun c => local_set c || (c =? ch "@")%N) x
                       = true).
  { intros p Hp x Hx. apply (forallb_weaken p); [|exact Hx].
    intros c Hc. now rewrite (Hp c Hc). }
  rewrite forallb_app. cbn [forallb]. rewrite forallb_app. cbn [forallb].
  rewrite (W local_set (fun c H => H) l Fl).
  rewrite (W domain_set domain_set_local d Fd).
  rewrite (W alpha_set alpha_set_local t Ft).
  reflexivity.
Qed.

Lemma format_valid_characters_witness :
  forallb (fun c => local_set c || (c =? ch "@")%N)
          (strip (lit " first.last+tag@mail.example.org ")) = true.
Proof.
  apply (format_valid_characters (lit " first.last+tag@mail.example.org ")).
  reflexivity.
Defined.

(** ** [check_domain_exists] *)

(** X3. The domain probe makes exactly one host lookup; it returns true
    when the lookup gives an address, false when the lookup raises
    [socket.gaierror], and for any other exception of the lookup it raises
    that same exception. *)
Theorem domain_probe_three_outcomes net domain :
  fst (check_domain_exists net domain) = [Host_lookup domain]
  /\ (snd (check_domain_exists net domain) = Ret true <->
      exists address, host_answer net domain = Ret address)
  /\ (snd (check_domain_exists net domain) = Ret false <->
      host_answer net domain = Raise gaierror)
  /\ (forall e,
         snd (check_domain_exists net domain) = Raise e <->
         host_answer net domain = Raise e /\ is_gaierror e = false).
Proof.
  rewrite check_domain_exists_cases. cbn [fst snd].
  split; [reflexivity|].
  destruct (host_answer net domain) as [a | e0].
  - split; [|split].
    + split; eauto.
    + split; discriminate.
    + intros e. split; [discriminate | intros [H _]; discriminate].
  - split; [|split].
    + split; [destruct (is_gaierror e0); discriminate|].
      intros [a H]. discriminate.
    + destruct e0; cbn; split; try discriminate; reflexivity.
    + intros e. destruct (is_gaierror e0) eqn:G.
      * split; [discriminate|]. intros [H G']. injection H as <-. congruence.
      * split.
        -- intros H. injection H as <-. auto.
        -- intros [H _]. injection H as <-. reflexivity.
Qed.

(** ** [validate_email] *)

(** X4. Whitespace before and after the address changes neither the
    requests [validate_email] makes nor its result. *)
Theorem validate_email_ignores_padding net pre s post check_mx check_domain :
  forallb isspace pre = true -> forallb isspace post = true ->
  validate_email net (pre ++ s ++ post) check_mx check_domain
  = validate_email net s check_mx check_domain.
Proof.
  intros Fpre Fpost. unfold validate_email.
  now rewrite (strip_padding _ _ _ Fpre Fpost).
Qed.

Lemma validate_email_ignores_padding_witness :
  validate_email example_net (lit "  " ++ lit "user@example.com" ++ [10%N])
                 true true
  = validate_email example_net (lit "user@example.com") true true.
Proof.
  apply (validate_email_ignores_padding example_net (lit "  ")
           (lit "user@example.com") [10%N] true true); reflexivity.
Defined.

(** X5. With both checks switched off [validate_email] is a syntax check
    only: it makes no request, it always returns, both signals are unknown
    and the status is valid if the format check passes and invalid if
    not. *)
Theorem validate_email_checks_off net email :
  validate_email net email false false
  = ([], Ret {| email := strip email;
                valid_format := validate_format email;
                has_mx := None; domain_exists := None;
                status := if validate_format email then valid else invalid |}).
Proof.
  destruct (validate_format email) eqn:H.
  - destruct (validate_email_returns net email false false) as (log & r & R);
      try (intros; discriminate).
    destruct (validate_email_format_ok_full _ _ _ _ _ _ H R)
      as (l & dom & _ & _ & -> & ->).
    exact R.
  - now apply validate_email_format_fails.
Qed.

(** X6. [validate_email] raises only an exception that a probe let
    through: the address then has a valid format, and either the MX query
    raised it and it does not derive from [Exception], or the host lookup
    raised it and it is not a [socket.gaierror].  In particular taking the
    domain out of the address never raises. *)
Theorem validate_email_raises_only_probe_faults
        net email check_mx check_domain log e :
  validate_email net email check_mx check_domain = (log, Raise e) ->
  validate_format email = true
  /\ exists l dom,
      strip email = l ++ ch "@" :: dom /\ ~ In (ch "@") l
      /\ ((check_mx = true /\ mx_answer net dom = Raise e
           /\ is_Exception e = false /\ log = [MX_query dom])
          \/ (check_domain = true /\ host_answer net dom = Raise e
              /\ is_gaierror e = false
              /\ log = (if check_mx then [MX_query dom] else [])
                       ++ [Host_lookup dom])).
Proof.
  intros R. destruct (validate_format email) eqn:H;
    [| rewrite (validate_email_format_fails _ _ _ _ H) in R; discriminate].
  split; [reflexivity|].
  destruct (format_valid_parts _ H) as (l & dom & E & Hl & Hd).
  exists l, dom. split; [exact E|]. split; [exact Hl|].
  unfold validate_email in R.
  rewrite validate_format_strip, H in R. cbv beta iota zeta in R.
  change (negb true) with false in R. cbv iota in R.
  rewrite E, (split_at_first _ _ _ Hl), (split_no_sep _ _ Hd) in R.
  unfold getitem in R. cbn [nth_error] in R. rewrite bind_ret_l in R.
  rewrite check_mx_records_cases, check_domain_exists_cases in R.
  destruct check_mx, check_domain;
    destruct (mx_answer net dom) as [[|rec recs] | em];
    destruct (host_answer net dom) as [a | eh];
    try destruct (is_Exception em) eqn:Gm;
    try destruct (is_gaierror eh) eqn:Gh;
    cbn in R; try discriminate;
    injection R as <- <-;
    solve [left; auto 10 | right; auto 10].
Qed.

Lemma validate_email_raises_only_probe_faults_witness :
  validate_format (lit "user@a..com") = true
  /\ exists l dom,
      strip (lit "user@a..com") = l ++ ch "@" :: dom /\ ~ In (ch "@") l
      /\ ((true = true /\ mx_answer offline dom = Raise UnicodeError
           /\ is_Exception UnicodeError = false
           /\ [MX_query (lit "a..com"); Host_lookup (lit "a..com")]
              = [MX_query dom])
          \/ (true = true /\ host_answer offline dom = Raise UnicodeError
              /\ is_gaierror UnicodeError = false
              /\ [MX_query (lit "a..com"); Host_lookup (lit "a..com")]
                 = (if true then [MX_query dom] else [])
                   ++ [Host_lookup dom])).
Proof.
  apply (validate_email_raises_only_probe_faults offline (lit "user@a..com")
           true true).
  reflexivity.
Defined.

(** X7. A call of [validate_email] that returns for an address of valid
    format has made one request per requested check and no other: the MX
    query first, then the host lookup, both for the text after the at
    sign. *)
Theorem validate_email_requests net email check_mx check_domain log r :
  validate_format email = true ->
  validate_email net email check_mx check_domain = (log, Ret r) ->
  exists l dom,
    strip email = l ++ ch "@" :: dom /\ ~ In (ch "@") l
    /\ log = (if check_mx then [MX_query dom] else [])
             ++ (if check_domain then [Host_lookup dom] else []).
Proof.
  intros H R.
  destruct (validate_email_format_ok_full _ _ _ _ _ _ H R)
    as (l & dom & E & Hl & Hlog & _).
  exists l, dom. auto.
Qed.

Lemma validate_email_requests_witness :
  exists l dom,
    strip (lit "user@example.com") = l ++ ch "@" :: dom /\ ~ In (ch "@") l
    /\ [MX_query (lit "example.com"); Host_lookup (lit "example.com")]
       = (if true then [MX_query dom] else [])
         ++ (if true then [Host_lookup dom] else []).
Proof.
  apply (validate_email_requests example_net (lit "user@example.com") true
           true _ (example_result "user@example.com" (Some true) (Some true)
                                  valid)); reflexivity.
Defined.

(** X8. Every result carries the trimmed address, its valid_format field
    is the answer of the format check, and its status is invalid exactly
    when that field is false. *)
Theorem result_invariant net address check_mx check_domain log r :
  validate_email net address check_mx check_domain = (log, Ret r) ->
  email r = strip address
  /\ valid_format r = validate_format address
  /\ (status r = invalid <-> valid_format r = false).
Proof.
  intros R. destruct (validate_format address) eqn:H.
  - destruct (validate_email_format_ok _ _ _ _ _ _ H R) as (bm & bd & ->).
    cbn. repeat split; try discriminate.
    destruct ((check_mx && negb bm) || (check_domain && negb bd));
      discriminate.
  - rewrite (validate_email_format_fails _ _ _ _ H) in R.
    injection R as _ <-. cbn. repeat split; reflexivity.
Qed.

Lemma result_invariant_witness :
  let r := example_result "user@nonexistent-domain-xyz123.test"
                          (Some false) (Some false) doubtful in
  email r = strip (lit "  user@nonexistent-domain-xyz123.test ")
  /\ valid_format r
     = validate_format (lit "  user@nonexistent-domain-xyz123.test ")
  /\ (status r = invalid <-> valid_format r = false).
Proof.
  apply (result_invariant example_net
           (lit "  user@nonexistent-domain-xyz123.test ") true true
           [MX_query (lit "nonexistent-domain-xyz123.test");
            Host_lookup (lit "nonexistent-domain-xyz123.test")]).
  reflexivity.
Defined.

(** X9. [validate_email] returns a result, whatever the address, when the
    MX query (if requested) fails only with exceptions deriving from
    [Exception] and the host lookup (if requested) fails only with
    [socket.gaierror]. *)
Theorem validate_email_returns_result net email check_mx check_domain :
  (forall d e, check_mx = true -> mx_answer net d = Raise e ->
               is_Exception e = true) ->
  (forall d e, check_domain = true -> host_answer net d = Raise e ->
               is_gaierror e = true) ->
  exists log r, validate_email net email check_mx check_domain = (log, Ret r).
Proof. apply validate_email_returns. Qed.

Lemma validate_email_returns_result_witness :
  exists log r,
    validate_email example_net (lit "someone@nowhere.invalid") true true
    = (log, Ret r).
Proof.
  apply (validate_email_returns_result example_net
           (lit "someone@nowhere.invalid") true true).
  - intros d e _. simpl.
    destruct (str_eqb d (lit "example.com")); intros H;
      [discriminate | injection H as <-; reflexivity].
  - intros d e _. simpl.
    destruct (str_eqb d (lit "example.com")); intros H;
      [discriminate | injection H as <-; reflexivity].
Defined.

(** ** [validate_single_email] *)


(** ** [save_results] *)

Lemma str_eqb_eq (a b : str) : str_eqb a b = true <-> a = b.
Proof.
  unfold str_eqb. destruct (list_eq_dec N.eq_dec a b); split;
    auto; discriminate.
Qed.

Lemma str_eqb_neq (a b : str) : a <> b -> str_eqb a b = false.
Proof.
  intros H. destruct (str_eqb a b) eqn:E; [|reflexivity].
  apply str_eqb_eq in E. contradiction.
Qed.

(** X11. Saving as csv, when the file can be written, writes the header
    and then one row per result, in the order of the results; every row
    has five cells; the success message follows. *)
Theorem csv_file_shape (written : unit) results output_file :
  exists rows,
    save_results (Ret written) results output_file (lit "csv")
    = ([Csv_rows output_file rows; Results_saved output_file], Ret tt)
    /\ length rows = S (length results)
    /\ Forall (fun row => length row = 5) rows
    /\ nth_error rows 0 = Some csv_header
    /\ forall i, nth_error rows (S i) = option_map csv_row (nth_error results i).
Proof.
  exists (csv_header :: map csv_row results).
  split; [reflexivity|]. split; [simpl; now rewrite length_map|].
  split; [|split; [reflexivity|]].
  - constructor; [reflexivity|].
    apply Forall_forall. intros row Hin. apply in_map_iff in Hin.
    destruct Hin as (r & <- & _). reflexivity.
  - intros i. simpl. apply nth_error_map.
Qed.

Lemma yes_no_injective a b : yes_no a = yes_no b -> a = b.
Proof. destruct a, b; intros H; try reflexivity; discriminate H. Qed.

Lemma yes_no_na_injective a b : yes_no_na a = yes_no_na b -> a = b.
Proof.
  destruct a as [[|]|], b as [[|]|]; intros H; try reflexivity;
    discriminate H.
Qed.

Lemma status_name_injective a b : status_name a = status_name b -> a = b.
Proof. destruct a, b; intros H; try reflexivity; discriminate H. Qed.

(** X12. A csv row determines the result it was written from: two results
    with the same row are the same result. *)
Theorem csv_row_injective (r1 r2 : Result) :
  csv_row r1 = csv_row r2 -> r1 = r2.
Proof.
  destruct r1 as [e1 f1 m1 d1 s1], r2 as [e2 f2 m2 d2 s2].
  unfold csv_row. cbn [email valid_format has_mx domain_exists status].
  intros H. injection H as He Hf Hm Hd Hs.
  apply yes_no_injective in Hf. apply yes_no_na_injective in Hm.
  apply yes_no_na_injective in Hd. apply status_name_injective in Hs.
  now subst.
Qed.

Lemma csv_row_injective_witness :
  example_result "user@example.com" (Some true) None valid
  = example_result "user@example.com" (Some true) None valid.
Proof.
  apply (csv_row_injective
           (example_result "user@example.com" (Some true) None valid)
           (example_result "user@example.com" (Some true) None valid)).
  reflexivity.
Defined.

(** X13. In a csv row the cell of a signal reads N/A exactly when the
    signal is unknown, Yes exactly when it is true and No exactly when it
    is false. *)
Theorem csv_signal_cells (r : Result) :
  let mx := nth_error (csv_row r) 2 in
  let dom := nth_error (csv_row r) 3 in
  (mx = Some (lit "N/A") <-> has_mx r = None)
  /\ (mx = Some (lit "Yes") <-> has_mx r = Some true)
  /\ (mx = Some (lit "No") <-> has_mx r = Some false)
  /\ (dom = Some (lit "N/A") <-> domain_exists r = None)
  /\ (dom = Some (lit "Yes") <-> domain_exists r = Some true)
  /\ (dom = Some (lit "No") <-> domain_exists r = Some false).
Proof.
  destruct r as [e f [[|]|] [[|]|] s]; cbn;
    repeat split; intros H; try reflexivity; try discriminate H.
Qed.

(** X14. With a format that is neither csv nor json, [save_results] opens
    no file and writes nothing, yet prints that the results were saved. *)
Theorem save_results_unknown_format written results output_file format :
  format <> lit "csv" -> format <> lit "json" ->
  save_results written results output_file format
  = ([Results_saved output_file], Ret tt).
Proof.
  intros Hcsv Hjson. unfold save_results.
  now rewrite (str_eqb_neq _ _ Hcsv), (str_eqb_neq _ _ Hjson).
Qed.

Lemma save_results_unknown_format_witness :
  save_results (Raise OSError) [] (lit "out.xml") (lit "xml")
  = ([Results_saved (lit "out.xml")], Ret tt).
Proof.
  apply (save_results_unknown_format (Raise OSError) [] (lit "out.xml")
           (lit "xml")); discriminate.
Defined.

(** X15. When the output file cannot be written, the failure being an
    exception deriving from [Exception], [save_results] does not raise: it
    prints the error and does not print that the results were saved. *)
Theorem save_results_reports_failure e results output_file format :
  is_Exception e = true ->
  format = lit "csv" \/ format = lit "json" ->
  save_results (Raise e) results output_file format
  = ([Error_saving_results e], Ret tt).
Proof.
  intros He [-> | ->]; unfold save_results; cbn; now rewrite He.
Qed.

Lemma save_results_reports_failure_witness :
  save_results (Raise OSError) [] (lit "/no/such/dir/out.csv") (lit "csv")
  = ([Error_saving_results OSError], Ret tt).
Proof.
  apply (save_results_reports_failure OSError [] (lit "/no/such/dir/out.csv")
           (lit "csv")); [reflexivity | left; reflexivity].
Defined.

(** ** [extract_emails_from_text] and [extract_from_file] *)

Lemma extract_emails_from_text_whole (text : str) :
  (exists m,
      extract_emails_from_text text = [m]
      /\ matches_email_pattern m /\ (text = m \/ text = m ++ [10%N]))
  \/ (extract_emails_from_text text = []
      /\ forall m, matches_email_pattern m ->
                   text <> m /\ text <> m ++ [10%N]).
Proof.
  rewrite extract_emails_from_text_cases. unfold Re.match_.
  destruct (Re.exec EMAIL_REGEX 0 text) as [e|] eqn:X.
  - left. apply email_regex_sound in X.
    destruct X as (_ & l & d & t & rest & -> & Sh & Hend & ->).
    exists (l ++ ch "@" :: d ++ ch "." :: t).
    rewrite firstn_app, Nat.sub_diag, firstn_all, firstn_O, app_nil_r.
    split; [reflexivity|]. split; [exists l, d, t; auto|].
    destruct (at_end_cases _ Hend) as [-> | ->];
      [left; now rewrite app_nil_r | right; reflexivity].
  - right. split; [reflexivity|].
    intros m (l & d & t & -> & Sh). split; intros ->.
    + destruct (email_regex_complete l d t [] Sh eq_refl) as [e He].
      rewrite app_nil_r in He. congruence.
    + destruct (email_regex_complete l d t [10%N] Sh eq_refl) as [e He].
      congruence.
Qed.

(** X16. [extract_emails_from_text] returns at most one address, and it
    returns one exactly when the text as a whole, one final newline
    apart, has the format of an address; the address returned is then the
    text without that newline.  An address inside a longer text is not
    found. *)
Theorem extract_emails_from_text_whole_text_only (text : str) :
  (exists m,
      extract_emails_from_text text = [m]
      /\ matches_email_pattern m /\ (text = m \/ text = m ++ [10%N]))
  \/ (extract_emails_from_text text = []
      /\ forall m, matches_email_pattern m ->
                   text <> m /\ text <> m ++ [10%N]).
Proof. apply extract_emails_from_text_whole. Qed.

(** X17. [extract_from_file] on a file that can be read reports no address
    or exactly one: the first message is that none was found, or that one
    was found followed by that one address, which is the whole text of the
    file, one final newline apart. *)
Theorem extract_from_file_at_most_one text written output_file :
  let shown := fst (extract_from_file (Ret text) written output_file) in
  shown = [No_addresses_found]
  \/ exists m tail,
      shown = Found 1 :: Address m :: tail
      /\ (forall a, ~ In (Address a) tail)
      /\ matches_email_pattern m /\ (text = m \/ text = m ++ [10%N]).
Proof.
  unfold extract_from_file.
  destruct (extract_emails_from_text_whole text)
    as [(m & -> & Hm & Ht) | [-> _]]; [right | left; reflexivity].
  cbn [is_empty length sorted insert_sorted map].
  destruct output_file as [f|]; [destruct written as [u | e]|].
  - exists m, [Wrote_emails f [m ++ [10%N]]; Emails_saved f].
    cbn. repeat split; auto. intros a [H | [H | []]]; discriminate.
  - destruct (is_Exception e).
    + exists m, [Error_processing_file e]. cbn. repeat split; auto.
      intros a [H | []]; discriminate.
    + exists m, []. cbn. repeat split; auto.
  - exists m, []. cbn. repeat split; auto.
Qed.

(** ** [validate_file] *)

Lemma strip_blank (l : str) : strip l = [] <-> forallb isspace l = true.
Proof.
  split.
  - intros E. destruct (strip_trims l) as ((pre & post & El & F1 & F2) & _).
    rewrite E in El. rewrite El. cbn [app]. now rewrite forallb_app, F1, F2.
  - intros F. unfold strip, lstrip. now rewrite (dropwhile_all _ _ F).
Qed.

Lemma is_empty_true {A : Type} (l : list A) : is_empty l = true <-> l = [].
Proof. destruct l; simpl; split; auto; discriminate. Qed.

Lemma read_emails_nil (lines : list str) :
  read_emails lines = [] <-> Forall (fun l => forallb isspace l = true) lines.
Proof.
  unfold read_emails. induction lines as [|l lines IH]; simpl.
  - split; auto.
  - destruct (strip l) as [|c r] eqn:E; simpl.
    + rewrite IH. apply strip_blank in E. split.
      * intros H. constructor; assumption.
      * intros H. now inversion H.
    + split; [discriminate|]. intros H. inversion H as [|? ? Hl _].
      apply strip_blank in Hl. rewrite E in Hl. discriminate.
Qed.

(** X18. The addresses read from the file are its lines with the
    surrounding whitespace removed, blank lines left out: each one is
    non-empty and already trimmed, and there are at most as many as
    lines. *)
Theorem read_emails_trimmed (lines : list str) :
  Forall (fun e => e <> [] /\ strip e = e /\ In e (map strip lines))
         (read_emails lines)
  /\ length (read_emails lines) <= length lines.
Proof.
  unfold read_emails. induction lines as [|l lines [IH Hlen]]; simpl.
  - split; [constructor | lia].
  - assert (IH' : Forall (fun e => e <> [] /\ strip e = e
                                   /\ (strip l = e \/ In e (map strip lines)))
                         (map strip
                              (filter (fun line => negb (is_empty (strip line)))
                                      lines))).
    { eapply Forall_impl; [|exact IH]. cbv beta. intros e (H1 & H2 & H3). auto. }
    destruct (strip l) as [|c r] eqn:E; simpl.
    + split; [exact IH' | lia].
    + split; [|lia]. constructor; [|exact IH'].
      split; [rewrite E; discriminate|]. split; [|auto].
      apply strip_idempotent.
Qed.

(** X19. A file is reported to hold no emails exactly when every line of
    it is empty or whitespace; nothing is validated then. *)
Theorem validate_file_blank_lines net lines check_mx check_domain output_file
        format workers sched :
  validate_file net (Ret lines) check_mx check_domain output_file format
                workers sched
  = ([No_emails_found], Ret tt)
  <-> Forall (fun l => forallb isspace l = true) lines.
Proof.
  rewrite <- read_emails_nil. unfold validate_file.
  destruct (read_emails lines) as [|e es] eqn:E; cbn [is_empty].
  - split; reflexivity.
  - split; [|discriminate].
    destruct (validate_concurrently net (e :: es) check_mx check_domain
                                    workers sched) as [shown [rs | ex]];
      discriminate.
Qed.

Lemma collect_returned_inv total :
  forall futures acc processed shown results,
    collect total futures acc processed = (shown, Ret results) ->
    exists rs,
      futures = map Ret rs /\ results = acc ++ rs
      /\ shown = map (fun k => Progress (progress k total))
                     (seq (processed + 1) (length rs)).
Proof.
  induction futures as [|[r | e] rest IH]; intros acc processed shown results H;
    simpl in H.
  - injection H as <- <-. exists []. now rewrite app_nil_r.
  - destruct (collect total rest (acc ++ [r]) (processed + 1))
      as [shown' out] eqn:C.
    injection H as <- ->. destruct (IH _ _ _ _ C) as (rs & -> & -> & ->).
    exists (r :: rs). simpl. rewrite <- app_assoc.
    replace (processed + 1 + 1) with (S (processed + 1)) by lia. auto.
  - discriminate.
Qed.

Lemma collect_raised_inv total :
  forall futures acc processed shown e,
    collect total futures acc processed = (shown, Raise e) ->
    exists rs rest,
      futures = map Ret rs ++ Raise e :: rest
      /\ shown = map (fun k => Progress (progress k total))
                     (seq (processed + 1) (length rs)).
Proof.
  induction futures as [|[r | e'] rest IH]; intros acc processed shown e H;
    simpl in H.
  - discriminate.
  - destruct (collect total rest (acc ++ [r]) (processed + 1))
      as [shown' out] eqn:C.
    injection H as <- ->. destruct (IH _ _ _ _ C) as (rs & rest' & -> & ->).
    exists (r :: rs), rest'. simpl.
    replace (processed + 1 + 1) with (S (processed + 1)) by lia. auto.
  - injection H as <- <-. exists [], rest. auto.
Qed.

Lemma returned_email net address check_mx check_domain r :
  snd (validate_email net address check_mx check_domain) = Ret r ->
  email r = strip address
  /\ (status r = invalid <-> validate_format address = false).
Proof.
  destruct (validate_email net address check_mx check_domain)
    as [log out] eqn:R. simpl. intros ->.
  destruct (validate_format address) eqn:H.
  - destruct (validate_email_format_ok _ _ _ _ _ _ H R) as (bm & bd & ->).
    cbn. split; [reflexivity|].
    destruct ((check_mx && negb bm) || (check_domain && negb bd));
      split; discriminate.
  - rewrite (validate_email_format_fails _ _ _ _ H) in R.
    injection R as _ <-. cbn. split; [reflexivity | split; reflexivity].
Qed.

Lemma validate_concurrently_returned
        net emails check_mx check_domain workers sched shown results :
  validate_concurrently net emails check_mx check_domain workers sched
  = (shown, Ret results) ->
  length results = length emails
  /\ Permutation (map Ret results)
                 (map (fun email =>
                         snd (validate_email net email check_mx check_domain))
                      emails)
  /\ Permutation (map email results) (map strip emails)
  /\ shown = map (fun k => Progress (progress k (length emails)))
                 (seq 1 (length emails)).
Proof.
  unfold validate_concurrently.
  destruct (ThreadPoolExecutor workers); [|discriminate].
  intros H. apply collect_returned_inv in H.
  destruct H as (rs & Hrs & -> & ->). cbn [app].
  set (f := fun email => snd (validate_email net email check_mx check_domain))
    in *.
  assert (P : Permutation (map Ret rs) (map f emails)).
  { rewrite <- Hrs. apply as_completed_perm. }
  assert (L : length rs = length emails).
  { apply Permutation_length in P. now rewrite !length_map in P. }
  split; [exact L|]. split; [exact P|]. split; [|now rewrite L].
  pose (h := fun o : result Result =>
               match o with Ret r => email r | Raise _ => [] end).
  apply (Permutation_map h) in P. rewrite !map_map in P. cbn [h] in P.
  rewrite P. apply Permutation_refl'. apply map_ext_in.
  intros x Hx.
  assert (Hin : In (f x) (map Ret rs)).
  { apply (Permutation_in (l := map f emails)).
    - symmetry. rewrite <- Hrs. apply as_completed_perm.
    - now apply in_map. }
  apply in_map_iff in Hin. destruct Hin as (r & Hr & _).
  unfold h. rewrite <- Hr.
  symmetry in Hr. now destruct (returned_email _ _ _ _ _ Hr).
Qed.

(** X20. The batch never hands back a partial collection: when it returns,
    there is exactly one result per address, each the result of the call
    for one of the addresses, and one progress line was printed per
    address, the k-th with the value for k of N. *)
Theorem validate_concurrently_all_or_nothing
        net emails check_mx check_domain workers sched shown results :
  validate_concurrently net emails check_mx check_domain workers sched
  = (shown, Ret results) ->
  length results = length emails
  /\ Permutation (map Ret results)
                 (map (fun email =>
                         snd (validate_email net email check_mx check_domain))
                      emails)
  /\ Permutation (map email results) (map strip emails)
  /\ shown = map (fun k => Progress (progress k (length emails)))
                 (seq 1 (length emails)).
Proof. apply validate_concurrently_returned. Qed.

Lemma validate_concurrently_all_or_nothing_witness :
  let results :=
    [example_result "user@example.com" (Some true) (Some true) valid;
     malformed_result "not-an-email"] in
  let emails := [lit "not-an-email"; lit "user@example.com"] in
  length results = length emails
  /\ Permutation (map Ret results)
                 (map (fun email => snd (validate_email example_net email true
                                                         true))
                      emails)
  /\ Permutation (map email results) (map strip emails)
  /\ [Progress 50%float; Progress 100%float]
     = map (fun k => Progress (progress k (length emails)))
           (seq 1 (length emails)).
Proof.
  apply (validate_concurrently_all_or_nothing example_net
           [lit "not-an-email"; lit "user@example.com"] true true 10 [1]).
  reflexivity.
Defined.

Lemma validate_concurrently_raised
        net emails check_mx check_domain workers sched shown e :
  validate_concurrently net emails check_mx check_domain workers sched
  = (shown, Raise e) ->
  ((workers <= 0)%Z /\ e = ValueError /\ shown = [])
  \/ ((0 < workers)%Z
      /\ (exists email,
             In email emails
             /\ snd (validate_email net email check_mx check_domain) = Raise e)
      /\ length shown < length emails).
Proof.
  unfold validate_concurrently, ThreadPoolExecutor.
  destruct (Z.leb_spec workers 0) as [Hw | Hw].
  - intros H. injection H as <- <-. left. auto.
  - intros H. right. split; [exact Hw|].
    apply collect_raised_inv in H. destruct H as (rs & rest & Hrs & ->).
    set (f := fun email => snd (validate_email net email check_mx check_domain))
      in *.
    pose proof (as_completed_perm sched (map f emails)) as P.
    rewrite Hrs in P. split.
    + assert (Hin : In (Raise e) (map f emails)).
      { apply (Permutation_in _ P). apply in_or_app. right. left. reflexivity. }
      apply in_map_iff in Hin. destruct Hin as (a & Ha & Hin). eauto.
    + apply Permutation_length in P.
      rewrite length_app, !length_map in P. simpl in P.
      rewrite length_map, length_seq. lia.
Qed.

(** X21. The batch fails only in two ways: with [ValueError] before any
    address is validated, when the number of workers is not positive; or
    with an exception that the call for one of its addresses raised, after
    fewer progress lines than there are addresses. *)
Theorem validate_concurrently_failure
        net emails check_mx check_domain workers sched shown e :
  validate_concurrently net emails check_mx check_domain workers sched
  = (shown, Raise e) ->
  ((workers <= 0)%Z /\ e = ValueError /\ shown = [])
  \/ ((0 < workers)%Z
      /\ (exists email,
             In email emails
             /\ snd (validate_email net email check_mx check_domain) = Raise e)
      /\ length shown < length emails).
Proof. apply validate_concurrently_raised. Qed.

Lemma validate_concurrently_failure_witness :
  ((10 <= 0)%Z /\ UnicodeError = ValueError /\ [Progress 50%float] = [])
  \/ ((0 < 10)%Z
      /\ (exists email,
             In email [lit "a@b.co"; lit "user@a..com"]
             /\ snd (validate_email offline email true true)
                = Raise UnicodeError)
      /\ length [Progress 50%float]
         < length [lit "a@b.co"; lit "user@a..com"]).
Proof.
  apply (validate_concurrently_failure offline
           [lit "a@b.co"; lit "user@a..com"] true true 10 []).
  reflexivity.
Defined.

Lemma collect_prints_progress total :
  forall futures acc processed,
    Forall (fun ev => exists p, ev = Progress p)
           (fst (collect total futures acc processed)).
Proof.
  induction futures as [|[r | e] rest IH]; intros acc processed; simpl.
  - constructor.
  - specialize (IH (acc ++ [r]) (processed + 1)).
    destruct (collect total rest (acc ++ [r]) (processed + 1)) as [shown out].
    simpl in *. constructor; eauto.
  - constructor.
Qed.

Lemma validate_concurrently_prints_progress
      net emails check_mx check_domain workers sched :
  Forall (fun ev => exists p, ev = Progress p)
         (fst (validate_concurrently net emails check_mx check_domain workers
                                     sched)).
Proof.
  unfold validate_concurrently.
  destruct (ThreadPoolExecutor workers); [|constructor].
  apply collect_prints_progress.
Qed.

Lemma count_status_total (rs : list Result) :
  count_status valid rs + count_status doubtful rs + count_status invalid rs
  = length rs.
Proof.
  unfold count_status. induction rs as [|r rs IH]; simpl; [reflexivity|].
  destruct (status r); simpl; lia.
Qed.

Lemma perm_filter_length {A : Type} (p : A -> bool) (l l' : list A) :
  Permutation l l' -> length (filter p l) = length (filter p l').
Proof.
  induction 1 as [| x l l' _ IH | x y l | l l' l'' _ IH1 _ IH2]; simpl.
  - reflexivity.
  - destruct (p x); simpl; now rewrite IH.
  - destruct (p x), (p y); reflexivity.
  - now rewrite IH1.
Qed.

(** The results that count as invalid are those of the malformed
    addresses. *)
Lemma invalid_results_are_malformed
      net emails check_mx check_domain results :
  Permutation (map Ret results)
              (map (fun email =>
                      snd (validate_email net email check_mx check_domain))
                   emails) ->
  count_status invalid results
  = length (filter (fun email => negb (validate_format email)) emails).
Proof.
  intros P.
  pose (c := fun o : result Result =>
               match o with
               | Ret r => match status r with invalid => true | _ => false end
               | Raise _ => false
               end).
  assert (L : count_status invalid results
              = length (filter c (map Ret results))).
  { unfold count_status. clear P.
    induction results as [|r rs IH]; simpl; [reflexivity|].
    destruct (status r); simpl; now rewrite IH. }
  rewrite L, (perm_filter_length c _ _ P).
  assert (Hret : forall email, In email emails ->
                   exists r, snd (validate_email net email check_mx
                                                 check_domain) = Ret r).
  { intros x Hx.
    assert (Hin : In (snd (validate_email net x check_mx check_domain))
                     (map Ret results)).
    { apply (Permutation_in (l := map (fun email =>
                 snd (validate_email net email check_mx check_domain)) emails)).
      - now symmetry.
      - apply (in_map (fun email =>
                 snd (validate_email net email check_mx check_domain))), Hx. }
    apply in_map_iff in Hin. destruct Hin as (r & Hr & _). eauto. }
  clear P L. induction emails as [|x emails IH]; simpl; [reflexivity|].
  destruct (Hret x (or_introl eq_refl)) as [r Hr]. rewrite Hr.
  destruct (returned_email _ _ _ _ _ Hr) as [_ Hst].
  assert (IH' := IH (fun y Hy => Hret y (or_intror Hy))).
  unfold c at 1. destruct (validate_format x).
  - destruct (status r); simpl; try exact IH'.
    destruct Hst as [Hst _]. specialize (Hst eq_refl). discriminate.
  - destruct Hst as [_ Hst]. rewrite (Hst eq_refl). simpl. now rewrite IH'.
Qed.

(** X22. Whenever [validate_file] prints a summary, its three counts add
    up to the number of addresses read from the file, and the invalid
    count is the number of addresses that fail the format check, whatever
    the network answered. *)
Theorem validate_file_summary net lines check_mx check_domain output_file
        format workers sched v d i :
  In (Summary v d i)
     (fst (validate_file net (Ret lines) check_mx check_domain output_file
                         format workers sched)) ->
  v + d + i = length (read_emails lines)
  /\ i = length (filter (fun email => negb (validate_format email))
                        (read_emails lines)).
Proof.
  unfold validate_file.
  destruct (is_empty (read_emails lines)).
  { intros [H | []]. discriminate. }
  pose proof (validate_concurrently_prints_progress net (read_emails lines)
                check_mx check_domain workers sched) as Hp.
  destruct (validate_concurrently net (read_emails lines) check_mx
                                  check_domain workers sched)
    as [shown [results | e]] eqn:V; cbn [fst] in *.
  - apply validate_concurrently_returned in V.
    destruct V as (Hlen & P & _ & _).
    intros [H | H]; [discriminate|].
    apply in_app_or in H. destruct H as [H | H].
    + rewrite Forall_forall in Hp. destruct (Hp _ H) as [p Hp']. discriminate.
    + destruct H as [H | [H | H]]; [discriminate | |].
      * injection H as <- <- <-. split.
        -- now rewrite count_status_total.
        -- now apply (invalid_results_are_malformed net _ check_mx check_domain).
      * destruct output_file; [destruct H as [H | []]; discriminate | destruct H].
  - intros [H | H]; [discriminate|].
    rewrite Forall_forall in Hp. destruct (Hp _ H) as [p Hp']. discriminate.
Qed.

Lemma validate_file_summary_witness :
  1 + 1 + 1 = length (read_emails
                        [lit "not-an-email"; lit "user@example.com";
                         lit "user@nonexistent-domain-xyz123.test"])
  /\ 1 = length (filter (fun email => negb (validate_format email))
                        (read_emails
                           [lit "not-an-email"; lit "user@example.com";
                            lit "user@nonexistent-domain-xyz123.test"])).
Proof.
  apply (validate_file_summary example_net
           [lit "not-an-email"; lit "user@example.com";
            lit "user@nonexistent-domain-xyz123.test"]
           true true None (lit "csv") 2 [2; 0; 0] 1 1 1).
  vm_compute. auto 10.
Defined.

(** X23. With a number of workers that is not positive and at least one
    address in the file, [validate_file] announces the validation and then
    fails with [ValueError]; no address is validated. *)
Theorem validate_file_without_workers net lines check_mx check_domain
        output_file format workers sched :
  read_emails lines <> [] -> (workers <= 0)%Z ->
  validate_file net (Ret lines) check_mx check_domain output_file format
                workers sched
  = ([Validating (length (read_emails lines))], Raise ValueError).
Proof.
  intros Hne Hw. unfold validate_file, validate_concurrently, ThreadPoolExecutor.
  destruct (read_emails lines) as [|e es]; [contradiction|].
  cbn [is_empty]. destruct (Z.leb_spec workers 0); [reflexivity | lia].
Qed.

Lemma validate_file_without_workers_witness :
  validate_file example_net (Ret [lit "user@example.com"]) true true None
                (lit "csv") 0 []
  = ([Validating (length (read_emails [lit "user@example.com"]))],
     Raise ValueError).
Proof.
  apply (validate_file_without_workers example_net [lit "user@example.com"]
           true true None (lit "csv") 0 []); [discriminate | lia].
Defined.

(** X24. When the MX query (if requested) fails only with exceptions
    deriving from [Exception] and the host lookup (if requested) fails
    only with [socket.gaierror], a batch with a positive number of workers
    always runs to its end: [validate_file] returns, and if the file holds
    an address it prints one progress line per address and a summary. *)
Theorem validate_file_completes net lines check_mx check_domain output_file
        format workers sched :
  (0 < workers)%Z ->
  (forall d e, check_mx = true -> mx_answer net d = Raise e ->
               is_Exception e = true) ->
  (forall d e, check_domain = true -> host_answer net d = Raise e ->
               is_gaierror e = true) ->
  exists shown,
    validate_file net (Ret lines) check_mx check_domain output_file format
                  workers sched = (shown, Ret tt)
    /\ (read_emails lines <> [] ->
        (exists v d i, In (Summary v d i) shown)
        /\ length (filter (fun ev => match ev with
                                     | Progress _ => true
                                     | _ => false
                                     end) shown)
           = length (read_emails lines)).
Proof.
  intros Hw Hmx Hhost. unfold validate_file.
  destruct (read_emails lines) as [|e0 es] eqn:E; cbn [is_empty].
  { eexists. split; [reflexivity|]. intros H. contradiction. }
  rewrite <- E.
  destruct (validate_concurrently_complete net (read_emails lines) check_mx
              check_domain workers sched Hw)
    as (rs & results & _ & _ & V & _ & _).
  { apply Forall_forall. intros x _.
    destruct (validate_email_returns net x check_mx check_domain Hmx Hhost)
      as (log & r & R).
    exists r. now rewrite R. }
  rewrite V. eexists. split; [reflexivity|]. intros _. split.
  - do 3 eexists. right. apply in_or_app. right. right. left. reflexivity.
  - cbn [filter]. rewrite filter_app.
    assert (F : forall l : list nat,
               filter (fun ev => match ev with
                                 | Progress _ => true
                                 | _ => false
                                 end)
                      (map (fun k => Progress
                                       (progress k (length (read_emails lines))))
                           l)
               = map (fun k => Progress
                                 (progress k (length (read_emails lines)))) l).
    { induction l as [|k l IHl]; simpl; [reflexivity | now rewrite IHl]. }
    rewrite F, length_app, length_map, length_seq.
    destruct output_file; simpl; lia.
Qed.

Lemma validate_file_completes_witness :
  exists shown,
    validate_file example_net
                  (Ret [lit "not-an-email"; lit "user@example.com"]) true true
                  None (lit "csv") 10 []
    = (shown, Ret tt)
    /\ (read_emails [lit "not-an-email"; lit "user@example.com"] <> [] ->
        (exists v d i, In (Summary v d i) shown)
        /\ length (filter (fun ev => match ev with
                                     | Progress _ => true
                                     | _ => false
                                     end) shown)
           = length (read_emails [lit "not-an-email"; lit "user@example.com"])).
Proof.
  apply (validate_file_completes example_net
           [lit "not-an-email"; lit "user@example.com"] true true None
           (lit "csv") 10 []).
  - lia.
  - intros d e _. simpl.
    destruct (str_eqb d (lit "example.com")); intros H;
      [discriminate | injection H as <-; reflexivity].
  - intros d e _. simpl.
    destruct (str_eqb d (lit "example.com")); intros H;
      [discriminate | injection H as <-; reflexivity].
Defined.

(** ** The stdin command of [main] *)

Lemma read_stdin_end_of_input :
  forall inputs emails,
    (forall e, ~ In (Raise e) inputs) ->
    read_stdin inputs emails = Raise (OtherException "EOFError").
Proof.
  induction inputs as [|[l | e] rest IH]; intros emails H; simpl.
  - reflexivity.
  - apply IH. intros e He. apply (H e). now right.
  - exfalso. apply (H e). now left.
Qed.

Lemma read_stdin_interrupted :
  forall lines rest emails,
    read_stdin (map Ret lines ++ Raise KeyboardInterrupt :: rest) emails
    = Ret (emails ++ read_emails lines).
Proof.
  unfold read_emails.
  induction lines as [|l lines IH]; intros rest emails; simpl.
  - now rewrite app_nil_r.
  - rewrite IH. destruct (strip l) as [|c r] eqn:E; simpl; [reflexivity|].
    now rewrite E, <- app_assoc.
Qed.

(** X25. In the stdin command, input that ends without an interrupt (end
    of file, as with a pipe) makes [main] fail with [EOFError] right after
    the prompt: none of the addresses entered is validated. *)
Theorem stdin_command_end_of_input w no_mx no_domain :
  (forall e, ~ In (Raise e) (stdin w)) ->
  main w (stdin_args no_mx no_domain)
  = ([Enter_emails], Raise (OtherException "EOFError")).
Proof.
  intros H. unfold main. now rewrite (read_stdin_end_of_input _ _ H).
Qed.

Lemma stdin_command_end_of_input_witness :
  main {| world_net := example_net;
          read_lines := fun _ => Raise OSError;
          read_text := fun _ => Raise OSError;
          write_file := fun _ => Raise OSError;
          stdin := [Ret (lit "user@example.com"); Ret (lit "a@b.co")];
          schedule := [] |}
       (stdin_args false false)
  = ([Enter_emails], Raise (OtherException "EOFError")).
Proof.
  apply (stdin_command_end_of_input
           {| world_net := example_net;
              read_lines := fun _ => Raise OSError;
              read_text := fun _ => Raise OSError;
              write_file := fun _ => Raise OSError;
              stdin := [Ret (lit "user@example.com"); Ret (lit "a@b.co")];
              schedule := [] |} false false).
  simpl. intros e [H | [H | []]]; discriminate.
Defined.

(** X26. In the stdin command, when the input is interrupted, the
    addresses validated are the lines entered before the interrupt,
    trimmed and without the blank ones, in the order entered, exactly as
    [validate_file] reads them from a file; what follows the interrupt is
    not read. *)
Theorem stdin_reads_until_interrupt w no_mx no_domain lines rest :
  stdin w = map Ret lines ++ Raise KeyboardInterrupt :: rest ->
  let run := validate_each (world_net w) (read_emails lines) (negb no_mx)
                           (negb no_domain) in
  main w (stdin_args no_mx no_domain)
  = (Enter_emails :: Blank :: map Single (fst run), snd (snd run)).
Proof.
  intros H. unfold main. rewrite H, read_stdin_interrupted. cbn [app].
  destruct (validate_each (world_net w) (read_emails lines) (negb no_mx)
                          (negb no_domain)) as [shown [log out]].
  reflexivity.
Qed.

Lemma stdin_reads_until_interrupt_witness :
  let w := {| world_net := example_net;
              read_lines := fun _ => Raise OSError;
              read_text := fun _ => Raise OSError;
              write_file := fun _ => Raise OSError;
              stdin := [Ret (lit " user@example.com "); Ret (lit "  ");
                        Raise KeyboardInterrupt; Ret (lit "a@b.co")];
              schedule := [] |} in
  let run := validate_each example_net
                           (read_emails [lit " user@example.com "; lit "  "])
                           (negb false) (negb false) in
  main w (stdin_args false false)
  = (Enter_emails :: Blank :: map Single (fst run), snd (snd run)).
Proof.
  apply (stdin_reads_until_interrupt
           {| world_net := example_net;
              read_lines := fun _ => Raise OSError;
              read_text := fun _ => Raise OSError;
              write_file := fun _ => Raise OSError;
              stdin := [Ret (lit " user@example.com "); Ret (lit "  ");
                        Raise KeyboardInterrupt; Ret (lit "a@b.co")];
              schedule := [] |} false false
           [lit " user@example.com "; lit "  "] [Ret (lit "a@b.co")]).
  reflexivity.
Defined.


